(** * scared.analysis: the batched analysis engine

    A shallow embedding of [src/scared/analysis.py] (class [BaseAnalysis] and
    [DPAAnalysis]) and the properties of its batch-size derivation, its
    convergence bookkeeping and its constructor validation.

    Python integers are [Z]; methods that mutate [self] are functions from
    [state] to [state]; methods that can raise return in the [result] monad. *)

From Stdlib Require Import String ZArith List Bool Lia Sorted.
Import ListNotations.
Local Open Scope Z_scope.

(** ** Exceptions and the error monad *)

Inductive exc : Type :=
| TypeError
| ValueError
| NotImplementedError
| DistinguisherError
| ZeroDivisionError
| OverflowError.

Inductive result (A : Type) : Type :=
| OK (a : A)
| Raise (e : exc).
Arguments OK {A} a.
Arguments Raise {A} e.

Definition bind {A B : Type} (r : result A) (k : A -> result B) : result B :=
  match r with
  | OK a => k a
  | Raise e => Raise e
  end.

Notation "x <- c1 ;; c2" := (bind c1 (fun x => c2))
  (at level 61, c1 at next level, right associativity).

(** ** Python arithmetic used by the engine *)

Module Py.

(** [a // b] on integers: floor division, [ZeroDivisionError] on [b = 0]. *)
Definition floordiv (a b : Z) : result Z :=
  if b =? 0 then Raise ZeroDivisionError else OK (a / b).

(** A finite binary64 value [(-1)^neg * mant * 2^expo]. *)
Record float : Type := mkfloat { neg : bool; mant : Z; expo : Z }.

(** Nearest integer to [n / d] for [0 <= n], [0 < d], ties to even. *)
Definition round_half_even (n d : Z) : Z :=
  let q := n / d in
  let r := n mod d in
  if 2 * r <? d then q
  else if d <? 2 * r then q + 1
  else if Z.even q then q else q + 1.

(** [floor (log2 (x / y))] for [0 < x], [0 < y]. *)
Definition floor_log2_ratio (x y : Z) : Z :=
  if y <=? x then Z.log2 (x / y)
  else - Z.log2_up ((y + x - 1) / x).

(** [a / b] on integers: the binary64 nearest to the exact quotient
    (ties to even), as CPython computes it; [ZeroDivisionError] on
    [b = 0], [OverflowError] when the quotient exceeds the binary64
    range. *)
Definition truediv (a b : Z) : result float :=
  if b =? 0 then Raise ZeroDivisionError
  else if a =? 0 then OK (mkfloat false 0 0)
  else
    let x := Z.abs a in
    let y := Z.abs b in
    let e := Z.max (floor_log2_ratio x y - 52) (-1074) in
    let m := round_half_even (x * 2 ^ Z.max 0 (- e)) (y * 2 ^ Z.max 0 e) in
    if 2 ^ 1024 <=? Z.shiftl m e then Raise OverflowError
    else OK (mkfloat (negb (Z.sgn a =? Z.sgn b)) m e).

(** [int(f)]: truncation toward zero. *)
Definition int_of_float (f : float) : Z :=
  let v := Z.shiftl (mant f) (expo f) in
  if neg f then - v else v.

(** Truth value of an optional integer attribute: [None] and [0] are
    false. *)
Definition truthy (o : option Z) : bool :=
  match o with
  | Some c => negb (c =? 0)
  | None => false
  end.

End Py.

(** ** Arguments as Python passes them *)

(** An argument that should be an instance of a class: either such an
    instance, or an object of another type. *)
Inductive pyarg (A : Type) : Type :=
| Instance (a : A)
| Foreign (type_name : string).
Arguments Instance {A} a.
Arguments Foreign {A} type_name.

(** Values a caller can pass as [convergence_step].  [bool] is a subclass of
    [int] in Python, so [PyBool] passes [isinstance(_, int)]. *)
Inductive pyvalue : Type :=
| PyNone
| PyInt (z : Z)
| PyBool (b : bool)
| PyObject (type_name : string).

Definition isinstance_int (v : pyvalue) : bool :=
  match v with
  | PyInt _ | PyBool _ => true
  | PyNone | PyObject _ => false
  end.

(** The numeric value of an [int] instance ([True] is 1, [False] is 0). *)
Definition int_value (v : pyvalue) : option Z :=
  match v with
  | PyInt z => Some z
  | PyBool b => Some (Z.b2z b)
  | PyNone | PyObject _ => None
  end.

(** ** Collaborators of the engine *)

(** The distinguisher mixin a concrete analysis class is composed with.
    [initialize] checks the precision and sets up the accumulators; it
    raises on a precision it refuses.  [compute] is a method on the
    accumulators: it returns the result array and the accumulators it
    leaves behind.  The library's [compute] refuses to reduce while no trace
    has been processed: what is stated below of a reduction is stated of an
    engine that has processed some trace. *)
Class DistinguisherMixin (Acc ndarray : Type) : Type := {
  initialize : string -> result Acc;
  update_acc : Acc -> ndarray -> ndarray -> Acc;
  compute : Acc -> ndarray * Acc
}.

Record SelectionFunction (Meta ndarray : Type) : Type :=
  { sf_call : Meta -> ndarray }.
Arguments sf_call {Meta ndarray} s m.

(** A leakage model; [is_Monobit] is [isinstance(model, models.Monobit)]. *)
Record Model (ndarray : Type) : Type :=
  { model_call : ndarray -> ndarray; is_Monobit : bool }.
Arguments model_call {ndarray} m a.
Arguments is_Monobit {ndarray} m.

(** A trace container: its default batch size and the traces it wraps. *)
Record Container (Trace : Type) : Type :=
  { batch_size : Z; traces : list Trace }.
Arguments batch_size {Trace} c.
Arguments traces {Trace} c.

(** The array held in [convergence_traces]: score slices stacked along a
    trailing axis.  Its numpy shape is [lead ++ [length slices]]. *)
Record buffer (ndarray : Type) : Type :=
  { lead : list nat; slices : list ndarray }.
Arguments lead {ndarray} b.
Arguments slices {ndarray} b.

Definition np_shape {ndarray : Type} (b : buffer ndarray) : list nat :=
  lead b ++ [length (slices b)].

(** [_np.empty(dims + (0, ))] *)
Definition np_empty_trailing {ndarray : Type} (dims : list nat) : buffer ndarray :=
  {| lead := dims; slices := [] |}.

(** Successive slices of [n] items; the last one may be shorter. *)
Fixpoint chunks {A : Type} (fuel : nat) (n : nat) (l : list A) : list (list A) :=
  match fuel with
  | O => []
  | S fuel' =>
      match l with
      | [] => []
      | _ :: _ => firstn n l :: chunks fuel' n (skipn n l)
      end
  end.

(** Modelled from the spec: [Container.batches] is not under [src/]; the
    trace source yields successive batches of the requested size, in order,
    the last one holding what is left.  The spec speaks of positive sizes
    only; as in the library, the size 0 stands for the default batch size of
    the container and a negative size is refused. *)
Definition batches {Trace : Type} (c : Container Trace) (size : Z)
  : result (list (list Trace)) :=
  if size <? 0 then Raise ValueError
  else
    let n := if size =? 0 then batch_size c else size in
    OK (chunks (length (traces c)) (Z.to_nat n) (traces c)).

(** ** The engine *)

Section Engine.

Context {Trace Meta Acc ndarray : Type}.
Variable metadatas : list Trace -> Meta.
Variable samples : list Trace -> ndarray.
Variable shape : ndarray -> list nat.
Context {mixin : DistinguisherMixin Acc ndarray}.

(** The attributes of an analysis object. *)
Record state : Type := mkstate {
  precision : string;
  processed_traces : Z;
  acc : Acc;
  selection_function : SelectionFunction Meta ndarray;
  model : Model ndarray;
  discriminant : ndarray -> ndarray;
  convergence_step : option Z;
  convergence_traces : option (buffer ndarray);
  _batches_processed : list Z;
  scores : option ndarray;
  results : option ndarray
}.

Definition set_processed_traces (v : Z) (s : state) : state :=
  mkstate (precision s) v (acc s) (selection_function s) (model s)
    (discriminant s) (convergence_step s) (convergence_traces s)
    (_batches_processed s) (scores s) (results s).

Definition set_acc (v : Acc) (s : state) : state :=
  mkstate (precision s) (processed_traces s) v (selection_function s)
    (model s) (discriminant s) (convergence_step s) (convergence_traces s)
    (_batches_processed s) (scores s) (results s).

Definition set_convergence_step (v : option Z) (s : state) : state :=
  mkstate (precision s) (processed_traces s) (acc s) (selection_function s)
    (model s) (discriminant s) v (convergence_traces s)
    (_batches_processed s) (scores s) (results s).

Definition set_convergence_traces (v : option (buffer ndarray)) (s : state)
  : state :=
  mkstate (precision s) (processed_traces s) (acc s) (selection_function s)
    (model s) (discriminant s) (convergence_step s) v
    (_batches_processed s) (scores s) (results s).

Definition set_batches_processed (v : list Z) (s : state) : state :=
  mkstate (precision s) (processed_traces s) (acc s) (selection_function s)
    (model s) (discriminant s) (convergence_step s) (convergence_traces s)
    v (scores s) (results s).

Definition set_scores (v : option ndarray) (s : state) : state :=
  mkstate (precision s) (processed_traces s) (acc s) (selection_function s)
    (model s) (discriminant s) (convergence_step s) (convergence_traces s)
    (_batches_processed s) v (results s).

Definition set_results (v : option ndarray) (s : state) : state :=
  mkstate (precision s) (processed_traces s) (acc s) (selection_function s)
    (model s) (discriminant s) (convergence_step s) (convergence_traces s)
    (_batches_processed s) (scores s) v.

(** [self.convergence_step] where the code tests it for truth: the step
    when it is set and not zero. *)
Definition tracking (s : state) : option Z :=
  if Py.truthy (convergence_step s) then convergence_step s else None.

(** Number of slices along the trailing axis of [convergence_traces]
    (none while it is [None]). *)
Definition slice_count (s : state) : nat :=
  match convergence_traces s with
  | Some b => length (slices b)
  | None => O
  end.

(** *** Construction *)

Record init_args : Type := {
  with_mixin : bool;
  arg_selection_function : pyarg (SelectionFunction Meta ndarray);
  arg_model : pyarg (Model ndarray);
  arg_discriminant : pyarg (ndarray -> ndarray);
  arg_precision : string;
  arg_convergence_step : pyvalue
}.

Definition _set_convergence (s : state) (convergence_step : pyvalue)
  : result state :=
  match convergence_step with
  | PyNone =>
      OK (set_batches_processed [0]
            (set_convergence_traces None (set_convergence_step None s)))
  | _ =>
      if negb (isinstance_int convergence_step) then Raise TypeError
      else
        match int_value convergence_step with
        | Some c =>
            if c <=? 0 then Raise ValueError
            else OK (set_batches_processed [0]
                       (set_convergence_traces None
                          (set_convergence_step (Some c) s)))
        | None => Raise TypeError
        end
  end.

Definition _set_selection_function
    (a : pyarg (SelectionFunction Meta ndarray))
  : result (SelectionFunction Meta ndarray) :=
  match a with
  | Instance f => OK f
  | Foreign _ => Raise TypeError
  end.

Definition _set_model (a : pyarg (Model ndarray)) : result (Model ndarray) :=
  match a with
  | Instance m => OK m
  | Foreign _ => Raise TypeError
  end.

Definition _set_discriminant (a : pyarg (ndarray -> ndarray))
  : result (ndarray -> ndarray) :=
  match a with
  | Instance d => OK d
  | Foreign _ => Raise TypeError
  end.

(** [BaseAnalysis.__init__].  The distinguisher is initialised first,
    with the precision and [processed_traces = 0], and raises on a
    precision it refuses; the attributes [_set_convergence] and the last
    two assignments create are absent until then, which the record shows
    as [None] and the empty list. *)
Definition BaseAnalysis_init (a : init_args) : result state :=
  if negb (with_mixin a) then Raise NotImplementedError
  else
    acc0 <- initialize (arg_precision a) ;;
    sf <- _set_selection_function (arg_selection_function a) ;;
    m <- _set_model (arg_model a) ;;
    d <- _set_discriminant (arg_discriminant a) ;;
    s <- _set_convergence
           (mkstate (arg_precision a) 0 acc0 sf m d None None [] None None)
           (arg_convergence_step a) ;;
    OK (set_results None (set_scores None s)).

(** [DPAAnalysis.__init__] *)
Definition DPAAnalysis_init (a : init_args) : result state :=
  s <- BaseAnalysis_init a ;;
  if negb (is_Monobit (model s)) then Raise DistinguisherError
  else OK s.

(** *** Batch size *)

Definition _compute_batch_size (s : state) (base_batch_size : Z) : result Z :=
  match tracking s with
  | Some c =>
      if base_batch_size >=? c then OK c
      else
        q <- Py.floordiv c base_batch_size ;;
        f <- Py.truediv c q ;;
        OK (Py.int_of_float f)
  | None => OK base_batch_size
  end.

(** *** Processing *)

Definition compute_intermediate_values (s : state) (metadata : Meta) : ndarray :=
  model_call (model s) (sf_call (selection_function s) metadata).

(** Modelled from the spec: [DistinguisherMixin.update] is not under
    [src/]; it folds the batch into the accumulators and adds the number
    of traces of the batch (the first dimension of the samples array) to
    [processed_traces]. *)
Definition update (s : state) (data traces : ndarray) : state :=
  set_acc (update_acc (acc s) data traces)
    (set_processed_traces
       (processed_traces s + Z.of_nat (hd O (shape traces))) s).

Definition process (s : state) (traces_batch : list Trace) : state :=
  let intermediate_values :=
    compute_intermediate_values s (metadatas traces_batch) in
  let s1 :=
    match convergence_traces s, tracking s with
    | None, Some _ =>
        set_convergence_traces
          (Some (np_empty_trailing (tl (shape intermediate_values)))) s
    | _, _ => s
    end in
  update s1 intermediate_values (samples traces_batch).

(** [compute_results], where the distinguisher's [compute] returns. *)
Definition compute_results (s : state) : state :=
  let (r, a) := compute (acc s) in
  set_scores (Some (discriminant s r)) (set_results (Some r) (set_acc a s)).

(** [_np.append(self.convergence_traces, self.scores[..., None], axis=-1)]:
    indexing [None] scores is a [TypeError]; numpy refuses to append to
    [None] and to arrays whose leading dimensions differ. *)
Definition _compute_convergence_traces (s : state) : result state :=
  match scores s with
  | None => Raise TypeError
  | Some sc =>
      match convergence_traces s with
      | None => Raise ValueError
      | Some b =>
          if list_eq_dec Nat.eq_dec (shape sc) (lead b)
          then OK (set_convergence_traces
                     (Some {| lead := lead b; slices := slices b ++ [sc] |}) s)
          else Raise ValueError
      end
  end.

Definition compute_convergence (s : state) : result state :=
  match tracking s with
  | Some c =>
      let s1 :=
        set_batches_processed (_batches_processed s ++ [processed_traces s]) s in
      if last (_batches_processed s1) 0 - hd 0 (_batches_processed s1) >=? c
      then
        let s2 := set_batches_processed [last (_batches_processed s1) 0] s1 in
        _compute_convergence_traces (compute_results s2)
      else OK s1
  | None => OK s
  end.

Definition _final_compute (s : state) : result state :=
  let s1 := compute_results s in
  match tracking s1 with
  | Some _ =>
      if (1 <? length (_batches_processed s1))%nat
      then _compute_convergence_traces s1
      else OK s1
  | None => OK s1
  end.

(** The loop of [run]: [process] then [compute_convergence] per batch. *)
Fixpoint process_batches (s : state) (bs : list (list Trace)) : result state :=
  match bs with
  | [] => OK s
  | batch :: rest =>
      s1 <- compute_convergence (process s batch) ;;
      process_batches s1 rest
  end.

Definition run (s : state) (container : pyarg (Container Trace))
  : result state :=
  match container with
  | Foreign _ => Raise TypeError
  | Instance c =>
      size <- _compute_batch_size s (batch_size c) ;;
      bs <- batches c size ;;
      s1 <- process_batches s bs ;;
      _final_compute s1
  end.

(** *** Engine states and collaborator contracts *)

(** States an analysis object goes through: construction, then any
    sequence of the engine's operations.  ([run] is a sequence of them; an
    operation that raises part-way leaves a state one of the others
    reaches.) *)
Inductive reachable : state -> Prop :=
| reach_init a s :
    BaseAnalysis_init a = OK s -> reachable s
| reach_process s batch :
    reachable s -> reachable (process s batch)
| reach_compute_results s :
    reachable s -> reachable (compute_results s)
| reach_compute_convergence s s' :
    reachable s -> compute_convergence s = OK s' -> reachable s'
| reach_final_compute s s' :
    reachable s -> _final_compute s = OK s' -> reachable s'.

(** The shapes the collaborators agree on: intermediate values are
    (batch, dims...) and scores are (dims...). *)
Definition shape_contract (dims : list nat) (s : state) : Prop :=
  (forall md, tl (shape (compute_intermediate_values s md)) = dims) /\
  (forall r, shape (discriminant s r) = dims).

(** The samples array of a batch has one row per trace. *)
Definition rows_contract : Prop :=
  forall batch, hd O (shape (samples batch)) = length batch.

(** The convergence step was validated. *)
Definition step_valid (s : state) : Prop :=
  forall c, convergence_step s = Some c -> 0 < c.

(** While tracking and before the buffer is allocated, nothing has been
    processed. *)
Definition idle_unallocated (s : state) : Prop :=
  forall c, tracking s = Some c -> convergence_traces s = None ->
    processed_traces s = 0 /\ Forall (eq 0) (_batches_processed s).

Definition untracked_unallocated (s : state) : Prop :=
  tracking s = None -> convergence_traces s = None.

Definition inv (s : state) : Prop :=
  step_valid s /\ idle_unallocated s /\ untracked_unallocated s.

Definition lead_is (dims : list nat) (s : state) : Prop :=
  forall b, convergence_traces s = Some b -> lead b = dims.

(** The configuration an operation leaves alone. *)
Definition same_config (s s' : state) : Prop :=
  selection_function s' = selection_function s /\
  model s' = model s /\
  discriminant s' = discriminant s /\
  convergence_step s' = convergence_step s.

(** Bookkeeping of a run whose batches fall on the multiples of the
    step [c]: the span starts at the last multiple of [c], one slice was
    stored per multiple passed. *)
Definition aligned (c : Z) (s : state) : Prop :=
  0 <= processed_traces s /\
  _batches_processed s <> [] /\
  hd 0 (_batches_processed s) = c * (processed_traces s / c) /\
  ((1 <? length (_batches_processed s))%nat = (0 <? processed_traces s mod c)) /\
  Z.of_nat (slice_count s) = processed_traces s / c.

(** The slices [convergence_traces] holds (none while it is [None]). *)
Definition slices_of (s : state) : list ndarray :=
  match convergence_traces s with
  | Some b => slices b
  | None => []
  end.

(** Bookkeeping of any run with batches of at most [size] traces: each
    stored slice closed a span of at least [c] and at most [c + size - 1]
    traces, the open span is shorter than [c], and it is not empty once a
    mark was added to the first one. *)
Definition spaced (c size : Z) (s : state) : Prop :=
  _batches_processed s <> [] /\
  c * Z.of_nat (slice_count s) <= hd 0 (_batches_processed s) /\
  hd 0 (_batches_processed s) <= Z.of_nat (slice_count s) * (c + size - 1) /\
  0 <= processed_traces s - hd 0 (_batches_processed s) < c /\
  ((1 < length (_batches_processed s))%nat ->
     hd 0 (_batches_processed s) < processed_traces s).

(** The last checkpoint is still current: when a single mark is held, the
    newest slice is the scores the accumulators give. *)
Definition closed_by_scores (s : state) : Prop :=
  _batches_processed s <> [] /\
  convergence_traces s <> None /\
  (length (_batches_processed s) = 1%nat ->
     exists front,
       slices_of s = front ++ [discriminant s (fst (compute (acc s)))]).

End Engine.

Arguments state : clear implicits.
Arguments init_args : clear implicits.

(** ** A small concrete analysis

    One-dimensional arrays of integers and scalars, a distinguisher that sums
    the samples it is given, and a discriminant that takes absolute values.
    The theorems below are instantiated on it. *)

Module Toy.

Inductive arr : Type :=
| Scalar (z : Z)
| Vector (l : list Z).

Definition shape (a : arr) : list nat :=
  match a with
  | Scalar _ => []
  | Vector l => [length l]
  end.

Definition total (a : arr) : Z :=
  match a with
  | Scalar z => z
  | Vector l => fold_right Z.add 0 l
  end.

Definition metadatas (batch : list Z) : list Z := batch.
Definition samples (batch : list Z) : arr := Vector batch.

(** The precisions the distinguisher accepts. *)
Definition float_dtype (precision : string) : bool :=
  (precision =? "float32")%string || (precision =? "float64")%string.

#[export] Instance sum_mixin : DistinguisherMixin Z arr := {
  initialize := fun precision =>
    if float_dtype precision then OK 0 else Raise ValueError;
  update_acc := fun a _ traces => a + total traces;
  compute := fun a => (Scalar a, a)
}.

Definition parity : SelectionFunction (list Z) arr :=
  {| sf_call := fun md => Vector (map (fun x => x mod 2) md) |}.

Definition monobit : Model arr :=
  {| model_call := fun a => a; is_Monobit := true |}.

Definition value : Model arr :=
  {| model_call := fun a => a; is_Monobit := false |}.

Definition absolute (r : arr) : arr := Scalar (Z.abs (total r)).

Definition args (m : Model arr) (step : pyvalue) : init_args (list Z) arr :=
  {| with_mixin := true;
     arg_selection_function := Instance parity;
     arg_model := Instance m;
     arg_discriminant := Instance absolute;
     arg_precision := "float32";
     arg_convergence_step := step |}.

Definition st := state (list Z) Z arr.

(** A fresh engine with the given convergence step. *)
Definition fresh (step : option Z) : st :=
  mkstate "float32" 0 0 parity monobit absolute step None [0] None None.

Definition container (b : Z) (n : nat) : pyarg (Container Z) :=
  Instance {| batch_size := b; traces := repeat 1 n |}.

Definition run_toy (s : st) (c : pyarg (Container Z)) : result st :=
  run metadatas samples shape s c.

(** A fresh engine with step 2 after one batch of 3 traces. *)
Definition after_batch : st :=
  process metadatas samples shape (fresh (Some 2)) [1; 1; 1].

End Toy.

(** Reads attributes through the setters. *)
Ltac fields :=
  unfold set_processed_traces, set_acc, set_convergence_step,
    set_convergence_traces, set_batches_processed, set_scores, set_results;
  cbn [precision processed_traces acc selection_function model discriminant
       convergence_step convergence_traces _batches_processed scores results
       lead slices].

(** ** The quotient [int(c / q)] below 2^53 *)

Section TrueDivision.

Implicit Types c q n d p : Z.

Lemma round_half_even_bounds (n d : Z) :
  n / d <= Py.round_half_even n d <= n / d + 1.
Proof.
  unfold Py.round_half_even.
  destruct (2 * (n mod d) <? d); [lia|].
  destruct (d <? 2 * (n mod d)); [lia|].
  destruct (Z.even (n / d)); lia.
Qed.

Lemma round_half_even_up (n d : Z) :
  Py.round_half_even n d = n / d + 1 -> d <= 2 * (n mod d).
Proof.
  unfold Py.round_half_even.
  destruct (2 * (n mod d) <? d) eqn:E; [lia|].
  intros _. apply Z.ltb_ge in E. exact E.
Qed.

(** Scaling the numerator by [p] so that the quotient has 53 bits does
    not let the rounded mantissa reach the next multiple of [p], as long
    as the numerator is below 2^53. *)
Lemma rounded_mantissa_floor (c q p : Z) :
  0 < q -> q <= c -> c < 2 ^ 53 -> 0 < p -> 2 ^ 52 <= (c / q) * p ->
  Py.round_half_even (c * p) q / p = c / q.
Proof.
  intros Hq Hqc Hc Hp Hn.
  set (n := c / q) in *.
  assert (Hdiv : c = q * n + c mod q) by (apply Z.div_mod; lia).
  assert (Hmod : 0 <= c mod q < q) by (apply Z.mod_pos_bound; lia).
  set (r := c mod q) in *.
  pose proof (round_half_even_bounds (c * p) q) as [Hlo Hhi].
  pose proof (round_half_even_up (c * p) q) as Hup.
  assert (Hdiv2 : c * p = q * (c * p / q) + (c * p) mod q)
    by (apply Z.div_mod; lia).
  assert (Hmod2 : 0 <= (c * p) mod q < q) by (apply Z.mod_pos_bound; lia).
  set (m := Py.round_half_even (c * p) q) in *.
  set (t := c * p / q) in *.
  set (u := (c * p) mod q) in *.
  assert (Ht_lo : n * p <= t) by nia.
  assert (Ht_hi : t < (n + 1) * p) by nia.
  assert (Hm_hi : m < (n + 1) * p).
  { destruct (Z_lt_le_dec m ((n + 1) * p)) as [|Hge]; [assumption|].
    exfalso.
    assert (Hm : m = t + 1) by lia.
    specialize (Hup Hm).
    assert (Ht : t = (n + 1) * p - 1) by lia.
    assert (H2p : 2 * p <= q) by nia.
    assert (0 <= n) by (apply Z.div_pos; lia).
    assert (2 ^ 53 <= n * q).
    { change (2 ^ 53) with (2 * 2 ^ 52). nia. }
    nia. }
  symmetry. apply Z.div_unique with (r := m - n * p); nia.
Qed.

Lemma log2_scale (n : Z) :
  0 < n -> n < 2 ^ 53 ->
  0 <= 52 - Z.log2 n /\ 2 ^ 52 <= n * 2 ^ (52 - Z.log2 n).
Proof.
  intros Hn Hlt.
  pose proof (Z.log2_spec n Hn) as [Hlo Hhi].
  pose proof (Z.log2_nonneg n) as Hnn.
  assert (Hle : Z.log2 n < 53).
  { apply Z.log2_lt_pow2; lia. }
  split; [lia|].
  replace (2 ^ 52) with (2 ^ Z.log2 n * 2 ^ (52 - Z.log2 n)).
  - apply Z.mul_le_mono_nonneg_r; [apply Z.pow_nonneg; lia | exact Hlo].
  - rewrite <- Z.pow_add_r by lia. f_equal. lia.
Qed.

(** Below 2^53 the float quotient, truncated, is the floor quotient. *)
Lemma int_truediv_floor (c q : Z) :
  0 < q -> q <= c -> c < 2 ^ 53 ->
  (f <- Py.truediv c q ;; OK (Py.int_of_float f)) = OK (c / q).
Proof.
  intros Hq Hqc Hc.
  assert (Hn : 0 < c / q) by (apply Z.div_str_pos; lia).
  assert (Hn53 : c / q < 2 ^ 53).
  { apply Z.le_lt_trans with c; [|exact Hc].
    apply Z.div_le_upper_bound; nia. }
  destruct (log2_scale (c / q) Hn Hn53) as [Hk Hscale].
  unfold Py.truediv.
  replace (q =? 0) with false by (symmetry; apply Z.eqb_neq; lia).
  replace (c =? 0) with false by (symmetry; apply Z.eqb_neq; lia).
  rewrite (Z.abs_eq c), (Z.abs_eq q) by lia.
  unfold Py.floor_log2_ratio.
  replace (q <=? c) with true by (symmetry; apply Z.leb_le; lia).
  set (k := 52 - Z.log2 (c / q)) in *.
  replace (Z.max (Z.log2 (c / q) - 52) (-1074)) with (- k)
    by (pose proof (Z.log2_nonneg (c / q)); subst k; lia).
  rewrite Z.opp_involutive.
  rewrite (Z.max_r 0 k) by lia.
  rewrite (Z.max_l 0 (- k)) by lia.
  change (2 ^ 0) with 1. rewrite Z.mul_1_r.
  assert (Hp : 0 < 2 ^ k) by (apply Z.pow_pos_nonneg; lia).
  assert (Hfloor : Z.shiftl (Py.round_half_even (c * 2 ^ k) q) (- k) = c / q).
  { rewrite Z.shiftl_opp_r, Z.shiftr_div_pow2 by lia.
    apply rounded_mantissa_floor; assumption. }
  rewrite Hfloor.
  replace (2 ^ 1024 <=? c / q) with false.
  - cbn [bind]. unfold Py.int_of_float. cbn [Py.mant Py.expo Py.neg].
    rewrite Hfloor.
    replace (Z.sgn c =? Z.sgn q) with true; [reflexivity|].
    symmetry. apply Z.eqb_eq.
    rewrite !Z.sgn_pos by lia. reflexivity.
  - symmetry. apply Z.leb_gt.
    apply Z.lt_trans with (2 ^ 53); [exact Hn53|].
    apply Z.pow_lt_mono_r; lia.
Qed.

End TrueDivision.

(** ** Batch-size derivation *)

Section BatchSize.

Context {Meta Acc ndarray : Type}.
Implicit Type s : state Meta Acc ndarray.

Lemma tracking_Some s c :
  tracking s = Some c -> convergence_step s = Some c /\ c <> 0.
Proof.
  unfold tracking, Py.truthy.
  destruct (convergence_step s) as [c'|]; [|discriminate].
  destruct (c' =? 0) eqn:E; cbn; [discriminate|].
  intros H. injection H as <-. apply Z.eqb_neq in E. auto.
Qed.

Lemma tracking_of_step s c :
  convergence_step s = Some c -> 0 < c -> tracking s = Some c.
Proof.
  intros H Hc. unfold tracking, Py.truthy. rewrite H.
  replace (c =? 0) with false by (symmetry; apply Z.eqb_neq; lia).
  reflexivity.
Qed.

Lemma tracking_None_of_step s :
  convergence_step s = None -> tracking s = None.
Proof. intros H. unfold tracking. rewrite H. reflexivity. Qed.


Lemma batch_size_capped s b c :
  tracking s = Some c -> c <= b -> _compute_batch_size s b = OK c.
Proof.
  intros H Hle. unfold _compute_batch_size. rewrite H.
  replace (b >=? c) with true; [reflexivity|].
  symmetry. apply Z.geb_le. exact Hle.
Qed.

Lemma batch_size_floor s b c :
  tracking s = Some c -> 0 < b -> b < c -> c < 2 ^ 53 ->
  _compute_batch_size s b = OK (c / (c / b)).
Proof.
  intros H Hb Hbc Hc. unfold _compute_batch_size. rewrite H.
  replace (b >=? c) with false
    by (symmetry; rewrite Z.geb_leb; apply Z.leb_gt; exact Hbc).
  unfold Py.floordiv.
  replace (b =? 0) with false by (symmetry; apply Z.eqb_neq; lia).
  cbn [bind].
  apply int_truediv_floor; [| |exact Hc].
  - apply Z.div_str_pos. lia.
  - apply Z.div_le_upper_bound; nia.
Qed.

(** What [c // (c // b)] is, for [0 < b < c]: at least [b], fitting
    [c // b] times in [c], and a divisor of [c] only when [c // b] is. *)
Lemma floor_quotient_facts (b c : Z) :
  0 < b -> b < c ->
  b <= c / (c / b) /\
  (c / b) * (c / (c / b)) <= c /\
  ((c / (c / b) | c) <-> (c / b | c)) /\
  ((b | c) -> c / (c / b) = b).
Proof.
  intros Hb Hbc.
  assert (Hq : 0 < c / b) by (apply Z.div_str_pos; lia).
  set (q := c / b) in *.
  assert (Hqb : q * b <= c).
  { subst q. rewrite Z.mul_comm. apply Z.mul_div_le. lia. }
  assert (Hsize_lo : b <= c / q).
  { apply Z.div_le_lower_bound; lia. }
  assert (Hsize : q * (c / q) <= c) by (apply Z.mul_div_le; lia).
  assert (Hrem : c < q * (c / q) + q).
  { pose proof (Z.div_mod c q ltac:(lia)).
    pose proof (Z.mod_pos_bound c q Hq). lia. }
  repeat split; try assumption.
  - intros [j Hj].
    assert (Hjq : j = q).
    { assert (0 < c / q) by lia.
      assert (q <= j) by nia.
      assert (j <= q).
      { assert (c < (q + 1) * b).
        { subst q. pose proof (Z.div_mod c b ltac:(lia)).
          pose proof (Z.mod_pos_bound c b Hb). nia. }
        nia. }
      lia. }
    exists (c / q). rewrite Hj at 1. rewrite Hjq. lia.
  - intros [j Hj]. exists q.
    rewrite Hj at 2. rewrite Z.div_mul by lia.
    rewrite Hj at 1. lia.
  - intros [j Hj].
    assert (q = j).
    { subst q. rewrite Hj. apply Z.div_mul. lia. }
    subst j. rewrite Hj at 1. rewrite Z.mul_comm. apply Z.div_mul. lia.
Qed.

(** The derived batch size divides the step when the default batch size
    is at least the step, or divides it. *)
Lemma derived_size_divides s b c :
  tracking s = Some c -> 0 < c ->
  c <= b \/ (0 < b /\ b < c /\ (b | c) /\ c < 2 ^ 53) ->
  exists size,
    _compute_batch_size s b = OK size /\ 0 < size /\ (size | c).
Proof.
  intros Ht Hc [Hle | (Hb & Hbc & Hdiv & Hsmall)].
  - exists c. split; [apply batch_size_capped; assumption|].
    split; [exact Hc|]. exists 1. lia.
  - exists (c / (c / b)).
    destruct (floor_quotient_facts b c Hb Hbc) as (_ & _ & _ & Hexact).
    split; [apply batch_size_floor; assumption|].
    rewrite (Hexact Hdiv). split; assumption.
Qed.

End BatchSize.

(** ** The engine's operations *)

Lemma batches_positive {Trace : Type} (c : Container Trace) (size : Z) :
  0 < size ->
  batches c size =
  OK (chunks (length (traces c)) (Z.to_nat size) (traces c)).
Proof.
  intros Hsize. unfold batches.
  replace (size <? 0) with false by (symmetry; apply Z.ltb_ge; lia).
  replace (size =? 0) with false by (symmetry; apply Z.eqb_neq; lia).
  reflexivity.
Qed.

Section EngineFacts.

Context {Trace Meta Acc ndarray : Type}.
Variable metadatas : list Trace -> Meta.
Variable samples : list Trace -> ndarray.
Variable shape : ndarray -> list nat.
Context {mixin : DistinguisherMixin Acc ndarray}.

Implicit Type s : state Meta Acc ndarray.

Local Abbreviation process' := (process metadatas samples shape).
Local Abbreviation compute_convergence' := (compute_convergence shape).
Local Abbreviation final_compute' := (_final_compute shape).
Local Abbreviation append_scores' := (_compute_convergence_traces shape).
Local Abbreviation process_batches' := (process_batches metadatas samples shape).
Local Abbreviation run' := (run metadatas samples shape).
Local Abbreviation reachable' := (reachable metadatas samples shape).
Local Abbreviation shape_contract' := (shape_contract shape).
Local Abbreviation rows_contract' := (rows_contract samples shape).

(** The scores [compute_results] stores in state [s]. *)
Local Abbreviation scores_of s := (discriminant s (fst (compute (acc s)))).

(** *** [process] *)

Lemma process_processed_traces s batch :
  processed_traces (process' s batch) =
  processed_traces s + Z.of_nat (hd O (shape (samples batch))).
Proof.
  unfold process, update.
  destruct (convergence_traces s) eqn:E, (tracking s); cbn;
    rewrite ?E; reflexivity.
Qed.

Lemma process_convergence_traces s batch :
  convergence_traces (process' s batch) =
  match convergence_traces s, tracking s with
  | None, Some _ =>
      Some (np_empty_trailing
              (tl (shape (compute_intermediate_values s (metadatas batch)))))
  | old, _ => old
  end.
Proof.
  unfold process, update.
  destruct (convergence_traces s) eqn:E, (tracking s); cbn;
    rewrite ?E; reflexivity.
Qed.

Lemma process_frame s batch :
  _batches_processed (process' s batch) = _batches_processed s /\
  scores (process' s batch) = scores s /\
  results (process' s batch) = results s /\
  same_config s (process' s batch).
Proof.
  unfold process, update, same_config.
  destruct (convergence_traces s), (tracking s); cbn; auto 10.
Qed.

(** *** [compute_results] *)

Lemma compute_results_eq s :
  compute_results s =
  set_scores (Some (scores_of s))
    (set_results (Some (fst (compute (acc s))))
       (set_acc (snd (compute (acc s))) s)).
Proof. unfold compute_results. destruct (compute (acc s)); reflexivity. Qed.

Lemma compute_results_frame s :
  processed_traces (compute_results s) = processed_traces s /\
  _batches_processed (compute_results s) = _batches_processed s /\
  convergence_traces (compute_results s) = convergence_traces s /\
  same_config s (compute_results s).
Proof. rewrite compute_results_eq. unfold same_config. cbn. auto 10. Qed.

(** *** Configuration *)

Lemma same_config_refl s : same_config s s.
Proof. unfold same_config. auto. Qed.

Lemma same_config_trans s1 s2 s3 :
  same_config s1 s2 -> same_config s2 s3 -> same_config s1 s3.
Proof. unfold same_config. intuition congruence. Qed.

Lemma same_config_tracking s s' :
  same_config s s' -> tracking s' = tracking s.
Proof. intros (_ & _ & _ & H). unfold tracking. rewrite H. reflexivity. Qed.

Lemma same_config_contract dims s s' :
  same_config s s' -> (shape_contract' dims s <-> shape_contract' dims s').
Proof.
  intros (Hsf & Hm & Hd & _).
  unfold shape_contract, compute_intermediate_values.
  rewrite Hsf, Hm, Hd. tauto.
Qed.

Lemma same_config_step_valid s s' :
  same_config s s' -> step_valid s -> step_valid s'.
Proof. intros (_ & _ & _ & H) Hv c. rewrite H. apply Hv. Qed.

(** *** Appending a slice *)

Lemma append_scores_allocated dims s b sc :
  scores s = Some sc -> convergence_traces s = Some b ->
  shape sc = dims -> lead b = dims ->
  append_scores' s =
  OK (set_convergence_traces
        (Some {| lead := lead b; slices := slices b ++ [sc] |}) s).
Proof.
  intros Hsc Hb Hshape Hlead. unfold _compute_convergence_traces.
  rewrite Hsc, Hb.
  destruct (list_eq_dec Nat.eq_dec (shape sc) (lead b)); [reflexivity|].
  congruence.
Qed.

Lemma append_scores_OK s s' :
  append_scores' s = OK s' ->
  exists b sc,
    convergence_traces s = Some b /\ scores s = Some sc /\
    s' = set_convergence_traces
           (Some {| lead := lead b; slices := slices b ++ [sc] |}) s.
Proof.
  unfold _compute_convergence_traces.
  destruct (scores s) as [sc|]; [|discriminate].
  destruct (convergence_traces s) as [b|]; [|discriminate].
  destruct (list_eq_dec Nat.eq_dec (shape sc) (lead b)); [|discriminate].
  intros H. injection H as <-. eauto.
Qed.

(** *** [compute_convergence] *)

Lemma hd_app_single (l : list Z) (p : Z) : hd 0 (l ++ [p]) = hd p l.
Proof. destruct l; reflexivity. Qed.

Lemma compute_convergence_untracked s :
  tracking s = None -> compute_convergence' s = OK s.
Proof. intros H. unfold compute_convergence. rewrite H. reflexivity. Qed.

Lemma compute_convergence_below s c :
  tracking s = Some c ->
  processed_traces s - hd (processed_traces s) (_batches_processed s) < c ->
  compute_convergence' s =
  OK (set_batches_processed (_batches_processed s ++ [processed_traces s]) s).
Proof.
  intros Ht Hspan. unfold compute_convergence. rewrite Ht. cbn.
  rewrite last_last, hd_app_single.
  replace (_ >=? c) with false; [reflexivity|].
  symmetry. rewrite Z.geb_leb. apply Z.leb_gt. exact Hspan.
Qed.

Lemma compute_convergence_reached s c :
  tracking s = Some c ->
  c <= processed_traces s - hd (processed_traces s) (_batches_processed s) ->
  compute_convergence' s =
  append_scores'
    (compute_results (set_batches_processed [processed_traces s] s)).
Proof.
  intros Ht Hspan. unfold compute_convergence. rewrite Ht. cbn.
  rewrite last_last, hd_app_single.
  replace (_ >=? c) with true; [reflexivity|].
  symmetry. rewrite Z.geb_leb. apply Z.leb_le. exact Hspan.
Qed.

Lemma compute_convergence_checkpoint dims s c b :
  tracking s = Some c ->
  c <= processed_traces s - hd (processed_traces s) (_batches_processed s) ->
  convergence_traces s = Some b -> lead b = dims ->
  shape (scores_of s) = dims ->
  compute_convergence' s =
  OK (set_convergence_traces
        (Some {| lead := lead b; slices := slices b ++ [scores_of s] |})
        (compute_results (set_batches_processed [processed_traces s] s))).
Proof.
  intros Ht Hspan Hb Hlead Hshape.
  rewrite (compute_convergence_reached s c Ht Hspan).
  apply append_scores_allocated with (dims := dims); try assumption.
  - rewrite compute_results_eq. reflexivity.
  - rewrite compute_results_eq. cbn. exact Hb.
Qed.

(** Every way [compute_convergence] returns. *)
Lemma compute_convergence_OK s s' :
  compute_convergence' s = OK s' ->
  (tracking s = None /\ s' = s) \/
  (exists c, tracking s = Some c /\
     processed_traces s - hd (processed_traces s) (_batches_processed s) < c /\
     s' = set_batches_processed
            (_batches_processed s ++ [processed_traces s]) s) \/
  (exists c b, tracking s = Some c /\
     c <= processed_traces s - hd (processed_traces s) (_batches_processed s) /\
     convergence_traces s = Some b /\
     s' = set_convergence_traces
            (Some {| lead := lead b; slices := slices b ++ [scores_of s] |})
            (compute_results (set_batches_processed [processed_traces s] s))).
Proof.
  intros H.
  destruct (tracking s) as [c|] eqn:Ht.
  - destruct (Z_lt_le_dec
                (processed_traces s -
                 hd (processed_traces s) (_batches_processed s)) c)
      as [Hlt|Hle].
    + right; left. exists c.
      rewrite (compute_convergence_below s c Ht Hlt) in H.
      injection H as <-. auto.
    + right; right.
      rewrite (compute_convergence_reached s c Ht Hle) in H.
      apply append_scores_OK in H.
      destruct H as (b & sc & Hb & Hsc & ->).
      rewrite compute_results_eq in Hb, Hsc. cbn in Hb, Hsc.
      injection Hsc as <-.
      exists c, b. auto.
  - left. rewrite (compute_convergence_untracked s Ht) in H.
    injection H as <-. auto.
Qed.

Lemma compute_convergence_config s s' :
  compute_convergence' s = OK s' -> same_config s s'.
Proof.
  intros H. apply compute_convergence_OK in H.
  destruct H as [[_ ->] | [(c & _ & _ & ->) | (c & b & _ & _ & _ & ->)]].
  - apply same_config_refl.
  - unfold same_config. cbn. auto.
  - rewrite compute_results_eq. unfold same_config. cbn. auto.
Qed.

(** *** [_final_compute] *)

Lemma final_compute_eq s :
  final_compute' s =
  match tracking s with
  | Some _ =>
      if (1 <? length (_batches_processed s))%nat
      then append_scores' (compute_results s)
      else OK (compute_results s)
  | None => OK (compute_results s)
  end.
Proof.
  unfold _final_compute.
  destruct (compute_results_frame s) as (_ & Hm & _ & Hc).
  rewrite (same_config_tracking _ _ Hc), Hm. reflexivity.
Qed.

Lemma final_compute_config s s' :
  final_compute' s = OK s' -> same_config s s'.
Proof.
  rewrite final_compute_eq.
  destruct (compute_results_frame s) as (_ & _ & _ & Hc).
  destruct (tracking s);
    [destruct (1 <? length (_batches_processed s))%nat|].
  - intros H. apply append_scores_OK in H.
    destruct H as (b & sc & _ & _ & ->).
    destruct Hc as (? & ? & ? & ?). unfold same_config. cbn. auto.
  - intros H. injection H as <-. exact Hc.
  - intros H. injection H as <-. exact Hc.
Qed.

(** *** Construction *)

Lemma set_convergence_OK s v s' :
  _set_convergence s v = OK s' ->
  exists step,
    s' = set_batches_processed [0]
           (set_convergence_traces None (set_convergence_step step s)) /\
    (forall c, step = Some c -> 0 < c) /\
    (v = PyNone <-> step = None).
Proof.
  unfold _set_convergence.
  destruct v as [|z|b|name]; cbn.
  - intros H. injection H as <-. exists None.
    split; [reflexivity|]. split; [discriminate|]. tauto.
  - destruct (z <=? 0) eqn:E; [discriminate|].
    intros H. injection H as <-. exists (Some z).
    apply Z.leb_gt in E.
    split; [reflexivity|]. split.
    + intros c Hc. injection Hc as <-. exact E.
    + split; discriminate.
  - destruct (Z.b2z b <=? 0) eqn:E; [discriminate|].
    intros H. injection H as <-. exists (Some (Z.b2z b)).
    apply Z.leb_gt in E.
    split; [reflexivity|]. split.
    + intros c Hc. injection Hc as <-. exact E.
    + split; discriminate.
  - discriminate.
Qed.

Lemma init_OK a s :
  BaseAnalysis_init a = OK s ->
  exists acc0 sf m d step,
    initialize (arg_precision a) = OK acc0 /\
    arg_selection_function a = Instance sf /\
    arg_model a = Instance m /\
    arg_discriminant a = Instance d /\
    (forall c, step = Some c -> 0 < c) /\
    (arg_convergence_step a = PyNone <-> step = None) /\
    s = mkstate (arg_precision a) 0 acc0 sf m d step None [0] None None.
Proof.
  unfold BaseAnalysis_init.
  destruct (with_mixin a); [|discriminate].
  destruct (initialize (arg_precision a)) as [acc0|]; [|discriminate].
  destruct (arg_selection_function a) as [sf|]; [|discriminate].
  destruct (arg_model a) as [m|]; [|discriminate].
  destruct (arg_discriminant a) as [d|]; [|discriminate].
  cbn.
  destruct (_set_convergence _ (arg_convergence_step a)) as [s0|] eqn:E;
    [|discriminate].
  cbn. intros H. injection H as <-.
  apply set_convergence_OK in E. destruct E as (step & -> & Hpos & Hnone).
  exists acc0, sf, m, d, step. auto 10.
Qed.

(** *** Invariants of the engine's states *)

Lemma inv_init a s : BaseAnalysis_init a = OK s -> inv s.
Proof.
  intros H. apply init_OK in H.
  destruct H as (acc0 & sf & m & d & step & _ & _ & _ & _ & Hpos & _ & ->).
  split; [exact Hpos|]. split.
  - intros c _ _. cbn. repeat constructor.
  - intros _. reflexivity.
Qed.

Lemma inv_process s batch : inv s -> inv (process' s batch).
Proof.
  intros (Hv & Hidle & Hun).
  destruct (process_frame s batch) as (_ & _ & _ & Hc).
  pose proof (process_convergence_traces s batch) as Hb.
  pose proof (same_config_tracking _ _ Hc) as Ht.
  split; [eapply same_config_step_valid; eassumption|]. split.
  - intros c Htr Hnone. rewrite Ht in Htr. rewrite Htr in Hb.
    rewrite Hnone in Hb. destruct (convergence_traces s); discriminate.
  - intros Htr. rewrite Ht in Htr. rewrite Hb, Htr, (Hun Htr). reflexivity.
Qed.

Lemma inv_compute_results s : inv s -> inv (compute_results s).
Proof.
  intros (Hv & Hidle & Hun).
  destruct (compute_results_frame s) as (Hp & Hm & Hb & Hc).
  pose proof (same_config_tracking _ _ Hc) as Ht.
  split; [eapply same_config_step_valid; eassumption|]. split.
  - intros c Htr Hnone. rewrite Ht in Htr. rewrite Hb in Hnone.
    rewrite Hp, Hm. eapply Hidle; eassumption.
  - intros Htr. rewrite Ht in Htr. rewrite Hb. auto.
Qed.

Lemma inv_compute_convergence s s' :
  compute_convergence' s = OK s' -> inv s -> inv s'.
Proof.
  intros H (Hv & Hidle & Hun).
  pose proof (compute_convergence_config _ _ H) as Hc.
  pose proof (same_config_tracking _ _ Hc) as Ht.
  apply compute_convergence_OK in H.
  destruct H as [[_ ->] | [(c & Htr & _ & ->) | (c & b & Htr & _ & _ & ->)]].
  - split; [assumption|]. split; assumption.
  - split; [eapply same_config_step_valid; eassumption|]. split.
    + intros c' Htr' Hnone. cbn in Hnone |- *.
      destruct (Hidle c Htr Hnone) as [Hp Hall].
      split; [exact Hp|]. apply Forall_app. split; [exact Hall|].
      rewrite Hp. repeat constructor.
    + intros Htr'. congruence.
  - split; [eapply same_config_step_valid; eassumption|]. split.
    + intros c' _ Hnone. cbn in Hnone. discriminate.
    + intros Htr'. congruence.
Qed.

Lemma inv_final_compute s s' :
  final_compute' s = OK s' -> inv s -> inv s'.
Proof.
  intros H Hinv.
  pose proof (final_compute_config _ _ H) as Hc.
  pose proof (same_config_tracking _ _ Hc) as Ht.
  rewrite final_compute_eq in H.
  destruct (tracking s) as [c|] eqn:Htr;
    [destruct (1 <? length (_batches_processed s))%nat|].
  - apply append_scores_OK in H. destruct H as (b & sc & _ & _ & ->).
    destruct Hinv as (Hv & _ & _).
    split; [eapply same_config_step_valid; eassumption|]. split.
    + intros c' _ Hnone. cbn in Hnone. discriminate.
    + intros Htr'. congruence.
  - injection H as <-. apply inv_compute_results. exact Hinv.
  - injection H as <-. apply inv_compute_results. exact Hinv.
Qed.

Lemma reachable_inv s : reachable' s -> inv s.
Proof.
  induction 1 as [a s H | s batch _ IH | s _ IH | s s' _ IH H | s s' _ IH H].
  - eapply inv_init; eassumption.
  - apply inv_process; assumption.
  - apply inv_compute_results; assumption.
  - eapply inv_compute_convergence; eassumption.
  - eapply inv_final_compute; eassumption.
Qed.

(** *** The leading dimensions of the buffer *)

Lemma lead_process dims s batch :
  shape_contract' dims s -> lead_is dims s ->
  lead_is dims (process' s batch).
Proof.
  intros [Hiv _] Hlead b. rewrite process_convergence_traces.
  destruct (convergence_traces s) as [b0|] eqn:Hb.
  - intros H. apply Hlead. rewrite Hb. destruct (tracking s); exact H.
  - destruct (tracking s); [|discriminate].
    intros H. injection H as <-. cbn. apply Hiv.
Qed.

Lemma lead_compute_results dims s :
  lead_is dims s -> lead_is dims (compute_results s).
Proof.
  intros Hlead b.
  destruct (compute_results_frame s) as (_ & _ & -> & _). apply Hlead.
Qed.

Lemma lead_compute_convergence dims s s' :
  compute_convergence' s = OK s' -> lead_is dims s -> lead_is dims s'.
Proof.
  intros H Hlead. apply compute_convergence_OK in H.
  destruct H as [[_ ->] | [(c & _ & _ & ->) | (c & b & _ & _ & Hb & ->)]].
  - exact Hlead.
  - exact Hlead.
  - intros b' H. cbn in H. injection H as <-. cbn. apply Hlead. exact Hb.
Qed.

Lemma lead_final_compute dims s s' :
  final_compute' s = OK s' -> lead_is dims s -> lead_is dims s'.
Proof.
  rewrite final_compute_eq. intros H Hlead.
  destruct (tracking s);
    [destruct (1 <? length (_batches_processed s))%nat|].
  - apply append_scores_OK in H. destruct H as (b & sc & Hb & _ & ->).
    intros b' H. cbn in H. injection H as <-. cbn.
    apply (lead_compute_results dims s Hlead). exact Hb.
  - injection H as <-. apply lead_compute_results. exact Hlead.
  - injection H as <-. apply lead_compute_results. exact Hlead.
Qed.

Lemma reachable_lead dims s :
  reachable' s -> shape_contract' dims s -> lead_is dims s.
Proof.
  induction 1 as [a s H | s batch _ IH | s _ IH | s s' _ IH H | s s' _ IH H];
    intros Hcontract.
  - apply init_OK in H.
    destruct H as (acc0 & sf & m & d & step & _ & _ & _ & _ & _ & _ & ->).
    intros b Hb. discriminate.
  - destruct (process_frame s batch) as (_ & _ & _ & Hc).
    apply (same_config_contract dims _ _ Hc) in Hcontract.
    apply lead_process; auto.
  - destruct (compute_results_frame s) as (_ & _ & _ & Hc).
    apply (same_config_contract dims _ _ Hc) in Hcontract.
    apply lead_compute_results; auto.
  - pose proof (compute_convergence_config _ _ H) as Hc.
    apply (same_config_contract dims _ _ Hc) in Hcontract.
    eapply lead_compute_convergence; eauto.
  - pose proof (final_compute_config _ _ H) as Hc.
    apply (same_config_contract dims _ _ Hc) in Hcontract.
    eapply lead_final_compute; eauto.
Qed.

(** While the buffer is unallocated the span is empty. *)
Lemma span_unallocated s c :
  inv s -> tracking s = Some c -> convergence_traces s = None ->
  processed_traces s - hd (processed_traces s) (_batches_processed s) < c.
Proof.
  intros (Hv & Hidle & _) Ht Hnone.
  destruct (Hidle c Ht Hnone) as [Hp Hall].
  destruct (tracking_Some s c Ht) as [Hstep _].
  specialize (Hv c Hstep).
  rewrite Hp. destruct (_batches_processed s) as [|m ms]; cbn; [lia|].
  inversion Hall; subst. lia.
Qed.

(** *** One iteration of [run] *)

Lemma process_allocates s c batch :
  tracking s = Some c ->
  exists b, convergence_traces (process' s batch) = Some b.
Proof.
  intros Ht. rewrite process_convergence_traces, Ht.
  destruct (convergence_traces s); eauto.
Qed.

(** After [process], [compute_convergence] returns. *)
Lemma iteration_returns dims s batch :
  inv s -> lead_is dims s -> shape_contract' dims s ->
  exists s1,
    compute_convergence' (process' s batch) = OK s1 /\
    inv s1 /\ lead_is dims s1 /\ same_config s s1.
Proof.
  intros Hinv Hlead Hcontract.
  destruct (process_frame s batch) as (_ & _ & _ & Hc).
  pose proof (inv_process s batch Hinv) as Hinv'.
  pose proof (lead_process dims s batch Hcontract Hlead) as Hlead'.
  pose proof (proj1 (same_config_contract dims _ _ Hc) Hcontract)
    as Hcontract'.
  set (sp := process' s batch) in *.
  assert (Hret : exists s1, compute_convergence' sp = OK s1).
  { destruct (tracking sp) as [c|] eqn:Ht.
    - destruct (Z_lt_le_dec
                  (processed_traces sp -
                   hd (processed_traces sp) (_batches_processed sp)) c)
        as [Hlt|Hle].
      + rewrite (compute_convergence_below sp c Ht Hlt). eauto.
      + assert (Hts : tracking s = Some c)
          by (rewrite <- (same_config_tracking _ _ Hc); exact Ht).
        destruct (process_allocates s c batch Hts) as [b Hb].
        fold sp in Hb.
        rewrite (compute_convergence_checkpoint dims sp c b Ht Hle Hb).
        * eauto.
        * apply Hlead'. exact Hb.
        * apply Hcontract'.
    - rewrite (compute_convergence_untracked sp Ht). eauto. }
  destruct Hret as [s1 H1]. exists s1.
  split; [exact H1|]. split; [|split].
  - eapply inv_compute_convergence; eassumption.
  - eapply lead_compute_convergence; eassumption.
  - eapply same_config_trans; [exact Hc|].
    eapply compute_convergence_config; eassumption.
Qed.

(** *** [_final_compute] on the states [run] reaches *)

Lemma final_compute_appends dims s c b :
  tracking s = Some c -> (1 < length (_batches_processed s))%nat ->
  convergence_traces s = Some b -> lead b = dims ->
  shape (scores_of s) = dims ->
  final_compute' s =
  OK (set_convergence_traces
        (Some {| lead := lead b; slices := slices b ++ [scores_of s] |})
        (compute_results s)).
Proof.
  intros Ht Hlen Hb Hlead Hshape. rewrite final_compute_eq, Ht.
  replace (1 <? length (_batches_processed s))%nat with true
    by (symmetry; apply Nat.ltb_lt; exact Hlen).
  apply append_scores_allocated with (dims := dims); try assumption.
  - rewrite compute_results_eq. reflexivity.
  - rewrite compute_results_eq. cbn. exact Hb.
Qed.

Lemma final_compute_plain s :
  ~ (tracking s <> None /\ (1 < length (_batches_processed s))%nat) ->
  final_compute' s = OK (compute_results s).
Proof.
  intros Hno. rewrite final_compute_eq.
  destruct (tracking s); [|reflexivity].
  destruct (1 <? length (_batches_processed s))%nat eqn:E; [|reflexivity].
  exfalso. apply Hno. apply Nat.ltb_lt in E. split; [discriminate|exact E].
Qed.

Lemma final_compute_marks s s' :
  final_compute' s = OK s' ->
  _batches_processed s' = _batches_processed s /\
  processed_traces s' = processed_traces s /\
  (convergence_traces s' = None -> convergence_traces s = None).
Proof.
  rewrite final_compute_eq.
  destruct (compute_results_frame s) as (Hp & Hm & Hb & _).
  destruct (tracking s);
    [destruct (1 <? length (_batches_processed s))%nat|]; intros H.
  - apply append_scores_OK in H. destruct H as (b & sc & _ & _ & ->).
    cbn. split; [exact Hm|]. split; [exact Hp|]. discriminate.
  - injection H as <-. rewrite Hb. auto.
  - injection H as <-. rewrite Hb. auto.
Qed.

(** *** [run] *)

Lemma run_OK s container s' :
  run' s container = OK s' ->
  exists cont size bs s1,
    container = Instance cont /\
    _compute_batch_size s (batch_size cont) = OK size /\
    batches cont size = OK bs /\
    process_batches' s bs = OK s1 /\
    final_compute' s1 = OK s'.
Proof.
  unfold run. destruct container as [cont|]; [|discriminate].
  destruct (_compute_batch_size s (batch_size cont)) as [size|] eqn:E1;
    [|discriminate].
  cbn [bind]. destruct (batches cont size) as [bs|] eqn:E2; [|discriminate].
  cbn [bind].
  destruct (process_batches' s bs) as [s1|] eqn:E3; [|discriminate].
  cbn [bind]. intros H. exists cont, size, bs, s1. auto 10.
Qed.

Lemma process_batches_config bs : forall s s1,
  process_batches' s bs = OK s1 -> same_config s s1.
Proof.
  induction bs as [|batch rest IH]; intros s s1; cbn.
  - intros H. injection H as <-. apply same_config_refl.
  - destruct (compute_convergence' (process' s batch)) as [s0|] eqn:E;
      [|discriminate].
    cbn. intros H.
    destruct (process_frame s batch) as (_ & _ & _ & Hc).
    eapply same_config_trans; [exact Hc|].
    eapply same_config_trans; [|apply IH; exact H].
    eapply compute_convergence_config; exact E.
Qed.

Lemma run_config s container s' :
  run' s container = OK s' -> same_config s s'.
Proof.
  intros H. apply run_OK in H.
  destruct H as (cont & size & bs & s1 & _ & _ & _ & Hloop & Hfinal).
  eapply same_config_trans.
  - eapply process_batches_config; exact Hloop.
  - eapply final_compute_config; exact Hfinal.
Qed.

Lemma process_batches_reachable bs : forall s s1,
  process_batches' s bs = OK s1 -> reachable' s -> reachable' s1.
Proof.
  induction bs as [|batch rest IH]; intros s s1; cbn [process_batches].
  - intros H. injection H as <-. auto.
  - destruct (compute_convergence' (process' s batch)) as [s0|] eqn:E;
      [|discriminate].
    cbn [bind]. intros H Hreach. apply (IH s0 s1 H).
    apply reach_compute_convergence with (s := process' s batch);
      [|exact E].
    apply reach_process. exact Hreach.
Qed.

(** [run] stays within the states the operations reach. *)
Lemma run_reachable s container s' :
  reachable' s -> run' s container = OK s' -> reachable' s'.
Proof.
  intros Hreach H. apply run_OK in H.
  destruct H as (cont & size & bs & s1 & _ & _ & _ & Hloop & Hfinal).
  apply reach_final_compute with (s := s1); [|exact Hfinal].
  eapply process_batches_reachable; eassumption.
Qed.

(** *** Runs whose batches fall on the multiples of the step *)

(** With a batch size dividing the step, a batch never carries the span
    past the step. *)
Lemma aligned_span (c size p t : Z) :
  0 < size -> 0 < c -> (size | c) -> (size | p) -> 0 < t <= size ->
  0 < p mod c + t <= c /\
  (p mod c + t < c ->
     (p + t) / c = p / c /\ (p + t) mod c = p mod c + t) /\
  (p mod c + t = c ->
     (p + t) / c = p / c + 1 /\ (p + t) mod c = 0).
Proof.
  intros Hsize Hc [m Hm] [j Hj] Ht.
  pose proof (Z.div_mod p c ltac:(lia)) as Hdm.
  pose proof (Z.mod_pos_bound p c Hc) as Hmod.
  set (i := j - m * (p / c)).
  assert (Hmult : p mod c = i * size) by (subst i; nia).
  assert (Hi : i < m) by nia.
  assert (Hroom : p mod c + size <= c).
  { assert ((i + 1) * size <= m * size)
      by (apply Z.mul_le_mono_nonneg_r; lia).
    lia. }
  split; [lia|]. split; intros Hspan.
  - split.
    + symmetry. apply Z.div_unique with (r := p mod c + t); lia.
    + symmetry. apply Z.mod_unique with (q := p / c); lia.
  - split.
    + symmetry. apply Z.div_unique with (r := 0); lia.
    + symmetry. apply Z.mod_unique with (q := p / c + 1); lia.
Qed.

Lemma process_slice_count s batch :
  slice_count (process' s batch) = slice_count s.
Proof.
  unfold slice_count. rewrite process_convergence_traces.
  destruct (convergence_traces s), (tracking s); reflexivity.
Qed.

Lemma hd_nonempty (l : list Z) (d d' : Z) : l <> [] -> hd d l = hd d' l.
Proof. destruct l; [congruence|reflexivity]. Qed.

Lemma aligned_iteration dims c size s batch :
  rows_contract' -> 0 < size -> 0 < c -> (size | c) ->
  inv s -> lead_is dims s -> shape_contract' dims s ->
  tracking s = Some c -> aligned c s -> (size | processed_traces s) ->
  0 < Z.of_nat (length batch) <= size ->
  exists s1,
    compute_convergence' (process' s batch) = OK s1 /\
    inv s1 /\ lead_is dims s1 /\ same_config s s1 /\
    aligned c s1 /\
    processed_traces s1 = processed_traces s + Z.of_nat (length batch).
Proof.
  intros Hrows Hsize Hc Hdiv Hinv Hlead Hcontract Ht Hal Hdivp Hlen.
  destruct (iteration_returns dims s batch Hinv Hlead Hcontract)
    as (s1 & H1 & Hinv1 & Hlead1 & Hc1).
  exists s1. split; [exact H1|]. split; [exact Hinv1|].
  split; [exact Hlead1|]. split; [exact Hc1|].
  destruct Hal as (Hp & Hne & Hhd & Hlen1 & Hcount).
  destruct (process_frame s batch) as (Hm & _ & _ & Hcp).
  pose proof (process_processed_traces s batch) as Hpp.
  rewrite Hrows in Hpp.
  pose proof (process_slice_count s batch) as Hsc.
  assert (Htp : tracking (process' s batch) = Some c)
    by (rewrite (same_config_tracking _ _ Hcp); exact Ht).
  destruct (process_allocates s c batch Ht) as [b Hb].
  pose proof (lead_process dims s batch Hcontract Hlead b Hb) as Hleadb.
  pose proof (proj2 (proj1 (same_config_contract dims _ _ Hcp) Hcontract))
    as Hshape.
  set (t := Z.of_nat (length batch)) in *.
  destruct (aligned_span c size (processed_traces s) t
              Hsize Hc Hdiv Hdivp Hlen) as (Hspan & Hbelow & Hfull).
  set (sp := process' s batch) in *. clearbody sp.
  assert (Hstart : hd (processed_traces sp) (_batches_processed sp) =
                   c * (processed_traces s / c)).
  { rewrite Hm, <- Hhd. apply hd_nonempty. exact Hne. }
  assert (Hspan_eq :
            processed_traces sp -
            hd (processed_traces sp) (_batches_processed sp) =
            processed_traces s mod c + t).
  { rewrite Hstart, Hpp.
    pose proof (Z.div_mod (processed_traces s) c ltac:(lia)). lia. }
  destruct (Z_lt_le_dec (processed_traces s mod c + t) c) as [Hlt|Hle].
  - rewrite (compute_convergence_below sp c Htp) in H1 by lia.
    injection H1 as <-.
    destruct (Hbelow Hlt) as [Hq Hr].
    split; [|exact Hpp]. unfold aligned, slice_count. fields.
    fold (slice_count sp). rewrite Hpp, Hq, Hr, Hm, Hsc.
    split; [lia|]. split; [destruct (_batches_processed s); discriminate|].
    split; [rewrite hd_app_single, <- Hhd; apply hd_nonempty; exact Hne|].
    split; [|exact Hcount].
    replace (0 <? processed_traces s mod c + t) with true
      by (symmetry; apply Z.ltb_lt; lia).
    apply Nat.ltb_lt. rewrite length_app. cbn [length].
    destruct (_batches_processed s); [congruence|cbn [length]; lia].
  - rewrite (compute_convergence_checkpoint dims sp c b Htp) in H1;
      [| lia | exact Hb | exact Hleadb | apply Hshape].
    injection H1 as <-.
    destruct (Hfull ltac:(lia)) as [Hq Hr].
    rewrite compute_results_eq.
    split; [|exact Hpp]. unfold aligned, slice_count. fields.
    rewrite Hpp, Hq, Hr.
    split; [lia|]. split; [discriminate|].
    split.
    { cbn [hd].
      pose proof (Z.div_mod (processed_traces s) c ltac:(lia)). lia. }
    split; [reflexivity|].
    rewrite length_app. cbn [length].
    unfold slice_count in Hsc, Hcount. rewrite Hb in Hsc. lia.
Qed.

Lemma chunks_nil (fuel n : nat) : chunks fuel n (@nil Trace) = [].
Proof. destruct fuel; reflexivity. Qed.

Lemma aligned_loop dims c size :
  rows_contract' -> 0 < size -> 0 < c -> (size | c) ->
  forall fuel l s,
    (length l <= fuel)%nat ->
    inv s -> lead_is dims s -> shape_contract' dims s ->
    tracking s = Some c -> aligned c s -> (size | processed_traces s) ->
    exists s1,
      process_batches' s (chunks fuel (Z.to_nat size) l) = OK s1 /\
      inv s1 /\ lead_is dims s1 /\ same_config s s1 /\
      aligned c s1 /\
      processed_traces s1 = processed_traces s + Z.of_nat (length l).
Proof.
  intros Hrows Hsize Hc Hdiv.
  induction fuel as [|fuel IH];
    intros l s Hfuel Hinv Hlead Hcontract Ht Hal Hdivp.
  - destruct l; [|cbn in Hfuel; lia].
    exists s. cbn. rewrite Z.add_0_r. auto 10 using same_config_refl.
  - destruct l as [|x l'].
    + exists s. cbn. rewrite Z.add_0_r. auto 10 using same_config_refl.
    + set (l := x :: l') in *.
      set (n := Z.to_nat size) in *.
      assert (Hn : (0 < n)%nat) by (subst n; lia).
      change (chunks (S fuel) n l)
        with (firstn n l :: chunks fuel n (skipn n l)).
      cbn [process_batches].
      assert (Hfirst : 0 < Z.of_nat (length (firstn n l)) <= size).
      { rewrite length_firstn. subst l n. cbn [length]. lia. }
      destruct (aligned_iteration dims c size s (firstn n l)
                  Hrows Hsize Hc Hdiv Hinv Hlead Hcontract Ht Hal Hdivp
                  Hfirst)
        as (s1 & H1 & Hinv1 & Hlead1 & Hc1 & Hal1 & Hp1).
      rewrite H1. cbn [bind].
      destruct (Nat.le_gt_cases (length l) n) as [Hshort|Hlong].
      * rewrite skipn_all2 by exact Hshort. rewrite chunks_nil. cbn.
        exists s1. rewrite Hp1, firstn_all2 by exact Hshort. auto 10.
      * assert (Hfull : length (firstn n l) = n)
          by (rewrite length_firstn; lia).
        rewrite Hfull in Hp1.
        destruct (IH (skipn n l) s1) as (s2 & H2 & Hinv2 & Hlead2 & Hc2 & Hal2 & Hp2).
        -- rewrite length_skipn. lia.
        -- exact Hinv1.
        -- exact Hlead1.
        -- apply (same_config_contract dims _ _ Hc1). exact Hcontract.
        -- rewrite (same_config_tracking _ _ Hc1). exact Ht.
        -- exact Hal1.
        -- rewrite Hp1. apply Z.divide_add_r; [exact Hdivp|].
           exists 1. subst n. lia.
        -- exists s2. split; [exact H2|]. split; [exact Hinv2|].
           split; [exact Hlead2|].
           split; [exact (same_config_trans _ _ _ Hc1 Hc2)|].
           split; [exact Hal2|].
           rewrite Hp2, Hp1, length_skipn. lia.
Qed.

(** The state and the bookkeeping a fresh engine starts with. *)
Lemma init_aligned a s c :
  BaseAnalysis_init a = OK s -> convergence_step s = Some c ->
  0 < c /\ tracking s = Some c /\ aligned c s /\
  processed_traces s = 0 /\ convergence_traces s = None.
Proof.
  intros H Hstep.
  pose proof (inv_init a s H) as (Hv & _ & _).
  pose proof (Hv c Hstep) as Hc.
  split; [exact Hc|]. split; [apply tracking_of_step; assumption|].
  apply init_OK in H.
  destruct H as (acc0 & sf & m & d & step & _ & _ & _ & _ & _ & _ & ->).
  split; [|split; reflexivity].
  unfold aligned, slice_count. fields.
  change (0 / c) with 0. change (0 mod c) with 0.
  split; [lia|]. split; [discriminate|].
  split; [cbn [hd]; lia|]. split; reflexivity.
Qed.

(** The number of slices after a run on a fresh engine, when the batch
    size used divides the step. *)
Lemma aligned_run dims a s c cont size :
  rows_contract' -> shape_contract' dims s ->
  BaseAnalysis_init a = OK s -> convergence_step s = Some c ->
  _compute_batch_size s (batch_size cont) = OK size ->
  0 < size -> (size | c) ->
  exists s',
    run' s (Instance cont) = OK s' /\
    processed_traces s' = Z.of_nat (length (traces cont)) /\
    Z.of_nat (slice_count s') =
    Z.of_nat (length (traces cont)) / c +
    (if 0 <? Z.of_nat (length (traces cont)) mod c then 1 else 0).
Proof.
  intros Hrows Hcontract Hinit Hstep Hsize_eq Hsize Hdiv.
  destruct (init_aligned a s c Hinit Hstep)
    as (Hc & Ht & Hal & Hp0 & Hnone).
  pose proof (inv_init a s Hinit) as Hinv.
  assert (Hlead : lead_is dims s) by (intros b Hb; congruence).
  destruct (aligned_loop dims c size Hrows Hsize Hc Hdiv
              (length (traces cont)) (traces cont) s (Nat.le_refl _)
              Hinv Hlead Hcontract Ht Hal)
    as (s1 & H1 & Hinv1 & Hlead1 & Hc1 & Hal1 & Hp1).
  { rewrite Hp0. apply Z.divide_0_r. }
  rewrite Hp0, Z.add_0_l in Hp1.
  unfold run. rewrite Hsize_eq. cbn [bind].
  rewrite (batches_positive cont size Hsize).
  cbn [bind]. rewrite H1. cbn [bind].
  assert (Ht1 : tracking s1 = Some c)
    by (rewrite (same_config_tracking _ _ Hc1); exact Ht).
  destruct Hal1 as (_ & _ & _ & Hlen & Hcount).
  rewrite Hp1 in Hlen, Hcount.
  set (N := Z.of_nat (length (traces cont))) in *.
  destruct (0 <? N mod c) eqn:Hrem.
  - apply Nat.ltb_lt in Hlen. apply Z.ltb_lt in Hrem.
    destruct (convergence_traces s1) as [b|] eqn:Hb.
    + rewrite (final_compute_appends dims s1 c b Ht1 Hlen Hb).
      * eexists. split; [reflexivity|].
        rewrite compute_results_eq. unfold slice_count in *. fields.
        rewrite Hb in Hcount. rewrite length_app. cbn [length].
        split; [exact Hp1|]. lia.
      * apply Hlead1. exact Hb.
      * apply (proj2 (proj1 (same_config_contract dims _ _ Hc1) Hcontract)).
    + exfalso. destruct Hinv1 as (_ & Hidle & _).
      destruct (Hidle c Ht1 Hb) as [Hzero _].
      rewrite Hp1 in Hzero. rewrite Hzero, Z.mod_0_l in Hrem by lia. lia.
  - rewrite final_compute_plain.
    + eexists. split; [reflexivity|].
      destruct (compute_results_frame s1) as (Hp & _ & Hb & _).
      unfold slice_count in *. rewrite Hp, Hb.
      split; [exact Hp1|]. lia.
    + intros [_ Hgt]. apply Nat.ltb_lt in Hgt. congruence.
Qed.

(** ** Properties of the convergence bookkeeping *)

(** C2, as amended.  On a fresh engine with convergence step [c], when the
    batch size [run] derives divides [c] (as it does when the default
    batch size is at least [c] or divides [c]), a run over a source that is
    not empty, of [N = k*c + r] traces, [0 <= r < c], returns with [k]
    slices in [convergence_traces], and one more exactly when [r > 0].
    (On an empty source the final reduction has nothing to reduce.) *)
Theorem C2_checkpoint_count_aligned dims a s c cont size k r :
  rows_contract' -> shape_contract' dims s ->
  BaseAnalysis_init a = OK s -> convergence_step s = Some c ->
  _compute_batch_size s (batch_size cont) = OK size ->
  0 < size -> (size | c) ->
  traces cont <> [] ->
  Z.of_nat (length (traces cont)) = k * c + r -> 0 <= r < c ->
  exists s',
    run' s (Instance cont) = OK s' /\
    0 < processed_traces s' /\
    processed_traces s' = k * c + r /\
    Z.of_nat (slice_count s') = k + (if 0 <? r then 1 else 0).
Proof.
  intros Hrows Hcontract Hinit Hstep Hsize_eq Hsize Hdiv Hnonempty HN Hr.
  destruct (aligned_run dims a s c cont size Hrows Hcontract Hinit Hstep
              Hsize_eq Hsize Hdiv) as (s' & Hrun & Hp & Hcount).
  exists s'. split; [exact Hrun|].
  split.
  { rewrite Hp. destruct (traces cont); [congruence|]. cbn [length]. lia. }
  split; [congruence|].
  rewrite Hcount, HN.
  replace ((k * c + r) / c) with k
    by (apply Z.div_unique with (r := r); lia).
  replace ((k * c + r) mod c) with r
    by (apply Z.mod_unique with (q := k); lia).
  reflexivity.
Qed.

(** C3.  In every state of an engine that tracks convergence,
    [compute_convergence] appends [processed_traces] to
    [_batches_processed]; exactly when the newest mark minus the first one
    reaches [convergence_step], it keeps the newest mark alone, recomputes
    [results] and [scores] with [compute_results], and appends the new
    scores as one slice of [convergence_traces]; otherwise it stops after
    the append. *)
Theorem C3_checkpoint_trigger_and_reset dims s c :
  reachable' s -> shape_contract' dims s -> tracking s = Some c ->
  let marks := _batches_processed s ++ [processed_traces s] in
  (last marks 0 - hd 0 marks < c ->
     compute_convergence' s = OK (set_batches_processed marks s)) /\
  (c <= last marks 0 - hd 0 marks ->
     exists b s',
       convergence_traces s = Some b /\
       compute_convergence' s = OK s' /\
       s' = set_convergence_traces
              (Some {| lead := lead b;
                       slices := slices b ++ [scores_of s] |})
              (compute_results
                 (set_batches_processed [processed_traces s] s)) /\
       _batches_processed s' = [processed_traces s] /\
       results s' = Some (fst (compute (acc s))) /\
       scores s' = Some (scores_of s) /\
       convergence_traces s' =
         Some {| lead := lead b; slices := slices b ++ [scores_of s] |}).
Proof.
  intros Hreach Hcontract Ht marks. subst marks.
  rewrite last_last, hd_app_single.
  split; intros Hspan.
  - apply compute_convergence_below with (c := c); assumption.
  - pose proof (reachable_inv s Hreach) as Hinv.
    destruct (convergence_traces s) as [b|] eqn:Hb.
    + exists b. eexists. split; [reflexivity|].
      split.
      * apply (compute_convergence_checkpoint dims s c b Ht Hspan Hb).
        -- apply (reachable_lead dims s Hreach Hcontract). exact Hb.
        -- apply Hcontract.
      * rewrite compute_results_eq. fields. auto.
    + pose proof (span_unallocated s c Hinv Ht Hb). lia.
Qed.

Lemma compute_convergence_processed s s' :
  compute_convergence' s = OK s' -> processed_traces s' = processed_traces s.
Proof.
  intros H. apply compute_convergence_OK in H.
  destruct H as [[_ ->] | [(c & _ & _ & ->) | (c & b & _ & _ & _ & ->)]].
  - reflexivity.
  - reflexivity.
  - rewrite compute_results_eq. reflexivity.
Qed.

(** The loop of [run] adds the number of traces of its batches to
    [processed_traces]. *)
Lemma process_batches_processed bs : forall s s1,
  rows_contract' ->
  process_batches' s bs = OK s1 ->
  processed_traces s1 = processed_traces s + Z.of_nat (length (concat bs)).
Proof.
  induction bs as [|batch rest IH]; intros s s1 Hrows; cbn [process_batches].
  - intros H. injection H as <-. cbn. lia.
  - destruct (compute_convergence' (process' s batch)) as [s0|] eqn:E;
      [|discriminate].
    cbn [bind]. intros H. rewrite (IH s0 s1 Hrows H).
    rewrite (compute_convergence_processed _ _ E).
    rewrite process_processed_traces, Hrows.
    cbn [concat]. rewrite length_app. lia.
Qed.

Lemma process_batches_total dims bs : forall s,
  inv s -> lead_is dims s -> shape_contract' dims s ->
  exists s1,
    process_batches' s bs = OK s1 /\
    inv s1 /\ lead_is dims s1 /\ same_config s s1.
Proof.
  induction bs as [|batch rest IH]; intros s Hinv Hlead Hcontract.
  - exists s. cbn. auto using same_config_refl.
  - destruct (iteration_returns dims s batch Hinv Hlead Hcontract)
      as (s1 & H1 & Hinv1 & Hlead1 & Hc1).
    destruct (IH s1 Hinv1 Hlead1
                (proj1 (same_config_contract dims _ _ Hc1) Hcontract))
      as (s2 & H2 & Hinv2 & Hlead2 & Hc2).
    exists s2. cbn [process_batches]. rewrite H1. cbn [bind].
    split; [exact H2|]. split; [exact Hinv2|]. split; [exact Hlead2|].
    exact (same_config_trans _ _ _ Hc1 Hc2).
Qed.

(** C4.  [run] ends with [_final_compute] on the state the loop over the
    batches leaves.  When some trace has been processed by then, it calls
    [compute_results], which overwrites [results] and [scores], and it
    appends one more slice to [convergence_traces] if and only if the
    engine tracks convergence and [_batches_processed] then holds more than
    one mark.  This holds from every state of the engine. *)
Theorem C4_final_reduction dims s cont size :
  reachable' s -> shape_contract' dims s ->
  _compute_batch_size s (batch_size cont) = OK size -> 0 < size ->
  exists bs s1,
    batches cont size = OK bs /\
    process_batches' s bs = OK s1 /\
    (0 < processed_traces s1 ->
     exists s',
       run' s (Instance cont) = OK s' /\
       results s' = Some (fst (compute (acc s1))) /\
       scores s' = Some (scores_of s1) /\
       ((tracking s1 <> None /\ (1 < length (_batches_processed s1))%nat) ->
          exists b,
            convergence_traces s1 = Some b /\
            convergence_traces s' =
              Some {| lead := lead b;
                      slices := slices b ++ [scores_of s1] |}) /\
       (~ (tracking s1 <> None /\
           (1 < length (_batches_processed s1))%nat) ->
          convergence_traces s' = convergence_traces s1)).
Proof.
  intros Hreach Hcontract Hsize_eq Hsize.
  pose proof (reachable_inv s Hreach) as Hinv.
  pose proof (reachable_lead dims s Hreach Hcontract) as Hlead.
  assert (Hbs : batches cont size =
                OK (chunks (length (traces cont)) (Z.to_nat size)
                      (traces cont))).
  { apply batches_positive. exact Hsize. }
  destruct (process_batches_total dims
              (chunks (length (traces cont)) (Z.to_nat size) (traces cont))
              s Hinv Hlead Hcontract)
    as (s1 & H1 & Hinv1 & Hlead1 & Hc1).
  pose proof (proj1 (same_config_contract dims _ _ Hc1) Hcontract)
    as Hcontract1.
  assert (Hrun : run' s (Instance cont) = final_compute' s1).
  { unfold run. rewrite Hsize_eq. cbn [bind]. rewrite Hbs. cbn [bind].
    rewrite H1. reflexivity. }
  eexists. exists s1. split; [exact Hbs|]. split; [exact H1|].
  intros Hpos.
  destruct (tracking s1) as [c|] eqn:Ht1.
  - destruct (Nat.ltb_spec 1 (length (_batches_processed s1)))
      as [Hmany|Hone].
    + destruct (convergence_traces s1) as [b|] eqn:Hb.
      * eexists.
        split.
        { rewrite Hrun.
          apply (final_compute_appends dims s1 c b Ht1 Hmany Hb).
          - apply Hlead1. exact Hb.
          - apply Hcontract1. }
        rewrite compute_results_eq. fields.
        split; [reflexivity|]. split; [reflexivity|].
        split; [intros _; exists b; auto|].
        intros Hno. exfalso. apply Hno. split; [discriminate|exact Hmany].
      * destruct Hinv1 as (_ & Hidle & _).
        destruct (Hidle c Ht1 Hb) as [Hzero _]. lia.
    + assert (Hno : ~ (tracking s1 <> None /\
                       (1 < length (_batches_processed s1))%nat))
        by (rewrite Ht1; intros [_ Hgt]; lia).
      eexists.
      split; [rewrite Hrun; apply final_compute_plain; exact Hno|].
      rewrite compute_results_eq. fields.
      split; [reflexivity|]. split; [reflexivity|].
      split; [intros [_ Hgt]; lia|]. intros _. reflexivity.
  - assert (Hno : ~ (tracking s1 <> None /\
                     (1 < length (_batches_processed s1))%nat))
      by (rewrite Ht1; intros [Hsome _]; congruence).
    eexists.
    split; [rewrite Hrun; apply final_compute_plain; exact Hno|].
    rewrite compute_results_eq. fields.
    split; [reflexivity|]. split; [reflexivity|].
    split; [intros [Hsome _]; congruence|]. intros _. reflexivity.
Qed.

Lemma set_convergence_type_error s v :
  v <> PyNone -> isinstance_int v = false ->
  _set_convergence s v = Raise TypeError.
Proof.
  intros Hgiven Hint. unfold _set_convergence.
  destruct v; [congruence|discriminate|discriminate|reflexivity].
Qed.

Lemma set_convergence_value_error s v z :
  int_value v = Some z -> z <= 0 ->
  _set_convergence s v = Raise ValueError.
Proof.
  intros Hz Hle. unfold _set_convergence.
  destruct v as [|z'|b|name]; try discriminate;
    cbn in Hz |- *; injection Hz as ->;
    replace (z <=? 0) with true by (symmetry; apply Z.leb_le; exact Hle);
    reflexivity.
Qed.

(** C6.  When the distinguisher's [compute] leaves the accumulators as
    they are (the discriminant is a function of the results), a second
    [compute_results] with no [process] in between stores the same
    [results] and the same [scores] as the first. *)
Theorem C6_idempotent_reduction s :
  (forall a : Acc, snd (compute a) = a) ->
  results (compute_results (compute_results s)) =
    results (compute_results s) /\
  scores (compute_results (compute_results s)) =
    scores (compute_results s) /\
  compute_results (compute_results s) = compute_results s.
Proof.
  intros Hpure.
  assert (Hsame : compute_results (compute_results s) = compute_results s).
  { rewrite (compute_results_eq (compute_results s)).
    rewrite !(compute_results_eq s). fields.
    rewrite !Hpure. reflexivity. }
  rewrite Hsame. auto.
Qed.

(** C7.  [_set_convergence] raises [TypeError] on a [convergence_step]
    that is given and is not an integer, raises [ValueError] on an integer
    that is not strictly positive, and on [None] stores no step, an
    unallocated buffer and the single mark 0.  It is the last check of
    the constructor, which first has the distinguisher check the
    precision: once the precision is accepted, a construction whose class
    has the mixin fails with [TypeError] on a non-integer step, and one
    whose selection function, model and discriminant are accepted fails
    with [ValueError] on a non-positive integer and succeeds, tracking
    disabled, on [None]. *)
Theorem C7_convergence_step_validation (a : init_args Meta ndarray) s0 :
  let step := arg_convergence_step a in
  (step <> PyNone -> isinstance_int step = false ->
     _set_convergence s0 step = Raise TypeError) /\
  (forall z, int_value step = Some z -> z <= 0 ->
     _set_convergence s0 step = Raise ValueError) /\
  (step = PyNone ->
     exists s, _set_convergence s0 step = OK s /\
       convergence_step s = None /\ tracking s = None /\
       convergence_traces s = None /\ _batches_processed s = [0]) /\
  (with_mixin a = true ->
   (exists acc0, initialize (arg_precision a) = OK acc0) ->
   step <> PyNone -> isinstance_int step = false ->
     BaseAnalysis_init a = Raise TypeError) /\
  (with_mixin a = true ->
   (exists acc0, initialize (arg_precision a) = OK acc0) ->
   (exists sf, arg_selection_function a = Instance sf) ->
   (exists m, arg_model a = Instance m) ->
   (exists d, arg_discriminant a = Instance d) ->
     (forall z, int_value step = Some z -> z <= 0 ->
        BaseAnalysis_init a = Raise ValueError) /\
     (step = PyNone ->
        exists s, BaseAnalysis_init a = OK s /\
          convergence_step s = None /\ tracking s = None /\
          convergence_traces s = None /\ _batches_processed s = [0] /\
          processed_traces s = 0)).
Proof.
  intros step. subst step.
  split; [apply set_convergence_type_error|].
  split; [apply set_convergence_value_error|]. split.
  { intros ->. eexists. split; [reflexivity|]. cbn. auto. }
  split.
  - intros Hmixin [acc0 Hacc] Hgiven Hint. unfold BaseAnalysis_init.
    rewrite Hmixin, Hacc. cbn [negb bind].
    destruct (arg_selection_function a); [|reflexivity].
    destruct (arg_model a); [|reflexivity].
    destruct (arg_discriminant a); [|reflexivity].
    cbn [_set_selection_function _set_model _set_discriminant bind].
    rewrite set_convergence_type_error by assumption. reflexivity.
  - intros Hmixin [acc0 Hacc] [sf Hsf] [m Hm] [d Hd].
    unfold BaseAnalysis_init. rewrite Hmixin, Hacc, Hsf, Hm, Hd.
    cbn [negb _set_selection_function _set_model _set_discriminant bind].
    split.
    + intros z Hz Hle.
      rewrite (set_convergence_value_error _ _ z Hz Hle). reflexivity.
    + intros ->. eexists. split; [reflexivity|]. cbn. auto 10.
Qed.

(** C8.  Constructing a DPA analysis with a model that is not a Monobit
    model fails: the constructor raises, with [DistinguisherError]
    whenever the base constructor accepted the arguments; no trace has
    been processed at that point. *)
Theorem C8_dpa_requires_monobit (a : init_args Meta ndarray) :
  (forall m, arg_model a = Instance m -> is_Monobit m = false) ->
  (exists e, DPAAnalysis_init a = Raise e) /\
  (forall s, BaseAnalysis_init a = OK s ->
     DPAAnalysis_init a = Raise DistinguisherError /\
     processed_traces s = 0).
Proof.
  intros Hmodel.
  assert (Hbase : forall s, BaseAnalysis_init a = OK s ->
                    DPAAnalysis_init a = Raise DistinguisherError /\
                    processed_traces s = 0).
  { intros s Hs. unfold DPAAnalysis_init. rewrite Hs. cbn [bind].
    apply init_OK in Hs.
    destruct Hs as (acc0 & sf & m & d & step & _ & _ & Hm & _ & _ & _ & ->).
    fields. rewrite (Hmodel m Hm). auto. }
  split; [|exact Hbase].
  destruct (BaseAnalysis_init a) as [s|e] eqn:E.
  - exists DistinguisherError. apply (Hbase s eq_refl).
  - exists e. unfold DPAAnalysis_init. rewrite E. reflexivity.
Qed.

(** C9, as amended.  [convergence_traces] is [None] after construction.
    When the engine tracks convergence, the [process] call that finds it
    [None] allocates it with the shape of the intermediate values without
    their first axis, followed by a zero-length axis; until that first
    [process] call the other operations leave it [None].  From then on it
    stays an array with the same leading dimensions: [process] and
    [compute_results] keep it as it is, and only a checkpoint of
    [compute_convergence] or the final reduction adds a slice, the newly
    computed scores.  When [convergence_step] is [None] it is [None] in
    every state. *)
Theorem C9_lazy_allocation :
  (forall a s, BaseAnalysis_init a = OK s -> convergence_traces s = None) /\
  (forall s c batch,
     tracking s = Some c -> convergence_traces s = None ->
     exists b,
       convergence_traces (process' s batch) = Some b /\
       slices b = [] /\
       np_shape b =
         tl (shape (compute_intermediate_values s (metadatas batch)))
         ++ [O]) /\
  (forall s b batch,
     convergence_traces s = Some b ->
     convergence_traces (process' s batch) = Some b) /\
  (forall s,
     reachable' s -> convergence_traces s = None ->
     convergence_traces (compute_results s) = None /\
     (exists s', compute_convergence' s = OK s' /\
                 convergence_traces s' = None) /\
     (forall s', final_compute' s = OK s' -> convergence_traces s' = None)) /\
  (forall s,
     reachable' s -> convergence_step s = None ->
     convergence_traces s = None) /\
  (forall s b,
     convergence_traces s = Some b ->
     convergence_traces (compute_results s) = Some b /\
     (forall s', compute_convergence' s = OK s' ->
        exists b',
          convergence_traces s' = Some b' /\ lead b' = lead b /\
          (slices b' = slices b \/
           slices b' = slices b ++ [scores_of s])) /\
     (forall s', final_compute' s = OK s' ->
        exists b',
          convergence_traces s' = Some b' /\ lead b' = lead b /\
          (slices b' = slices b \/
           slices b' = slices b ++ [scores_of s]))).
Proof.
  split.
  { intros a s H. apply init_OK in H.
    destruct H as (acc0 & sf & m & d & step & _ & _ & _ & _ & _ & _ & ->).
    reflexivity. }
  split.
  { intros s c batch Ht Hnone. eexists.
    rewrite process_convergence_traces, Hnone, Ht.
    split; [reflexivity|]. split; reflexivity. }
  split.
  { intros s b batch Hb. rewrite process_convergence_traces, Hb.
    destruct (tracking s); reflexivity. }
  split.
  { intros s Hreach Hnone.
    pose proof (reachable_inv s Hreach) as Hinv.
    destruct (compute_results_frame s) as (_ & _ & Hb & _).
    split; [rewrite Hb; exact Hnone|]. split.
    + destruct (tracking s) as [c|] eqn:Ht.
      * pose proof (span_unallocated s c Hinv Ht Hnone) as Hspan.
        rewrite (compute_convergence_below s c Ht Hspan).
        eexists. split; [reflexivity|]. exact Hnone.
      * rewrite (compute_convergence_untracked s Ht).
        eexists. split; [reflexivity|]. exact Hnone.
    + intros s'. rewrite final_compute_eq.
      destruct (tracking s);
        [destruct (1 <? length (_batches_processed s))%nat|]; intros H.
      * apply append_scores_OK in H. destruct H as (b & sc & Hb' & _).
        congruence.
      * injection H as <-. congruence.
      * injection H as <-. congruence. }
  split.
  { intros s Hreach Hstep.
    destruct (reachable_inv s Hreach) as (_ & _ & Hun).
    apply Hun. apply tracking_None_of_step. exact Hstep. }
  intros s b Hb.
  destruct (compute_results_frame s) as (_ & _ & Hframe & _).
  split; [rewrite Hframe; exact Hb|]. split.
  - intros s' H. apply compute_convergence_OK in H.
    destruct H as [[_ ->] | [(c & _ & _ & ->) | (c & b0 & _ & _ & Hb0 & ->)]].
    + exists b. auto.
    + exists b. fields. auto.
    + assert (b0 = b) by congruence. subst b0.
      eexists. fields. split; [reflexivity|]. cbn. auto.
  - intros s'. rewrite final_compute_eq.
    destruct (tracking s);
      [destruct (1 <? length (_batches_processed s))%nat|]; intros H.
    + apply append_scores_OK in H. destruct H as (b0 & sc & Hb0 & Hsc & ->).
      rewrite Hframe in Hb0. assert (b0 = b) by congruence. subst b0.
      rewrite compute_results_eq in Hsc. cbn in Hsc. injection Hsc as <-.
      eexists. fields. split; [reflexivity|]. cbn. auto.
    + injection H as <-. exists b. rewrite Hframe. auto.
    + injection H as <-. exists b. rewrite Hframe. auto.
Qed.

(** C10.  When the engine tracks convergence and the newest mark, once
    appended, is still less than [convergence_step] away from the first
    one, [compute_convergence] returns with [results], [scores] and
    [convergence_traces] as they were; all it does is add
    [processed_traces] at the end of [_batches_processed]. *)
Theorem C10_sub_threshold_frame s c :
  tracking s = Some c ->
  let marks := _batches_processed s ++ [processed_traces s] in
  last marks 0 - hd 0 marks < c ->
  exists s',
    compute_convergence' s = OK s' /\
    s' = set_batches_processed marks s /\
    _batches_processed s' = _batches_processed s ++ [processed_traces s] /\
    results s' = results s /\
    scores s' = scores s /\
    convergence_traces s' = convergence_traces s /\
    processed_traces s' = processed_traces s /\
    acc s' = acc s.
Proof.
  intros Ht marks Hspan. subst marks.
  rewrite last_last, hd_app_single in Hspan.
  eexists. split; [apply compute_convergence_below with (c := c); assumption|].
  fields. auto 10.
Qed.

(** ** Further properties of the bookkeeping *)

(** X5.  Whenever [compute_convergence] returns on an engine that tracks
    convergence, the newest mark is [processed_traces], which it leaves
    alone, and the span from the first mark to it is shorter than the
    step: a span that reaches the step is closed at once. *)
Theorem X5_open_span_below_step s c s' :
  tracking s = Some c -> 0 < c -> compute_convergence' s = OK s' ->
  _batches_processed s' <> [] /\
  last (_batches_processed s') 0 = processed_traces s' /\
  processed_traces s' = processed_traces s /\
  processed_traces s' - hd 0 (_batches_processed s') < c.
Proof.
  intros Ht Hc H. apply compute_convergence_OK in H.
  destruct H as [[Hn _] | [(c' & Ht' & Hspan & ->)
                          | (c' & b & Ht' & _ & _ & ->)]].
  - congruence.
  - assert (c' = c) by congruence. subst c'. fields.
    rewrite last_last, hd_app_single.
    split; [destruct (_batches_processed s); discriminate|]. auto.
  - rewrite compute_results_eq. fields. cbn [last hd].
    split; [discriminate|]. split; [reflexivity|]. split; [reflexivity|]. lia.
Qed.

Lemma sorted_app_single (l : list Z) (p : Z) :
  StronglySorted Z.le l -> Forall (fun m => m <= p) l ->
  StronglySorted Z.le (l ++ [p]).
Proof.
  induction 1 as [|x l Hs IH Hx]; intros Hall; cbn.
  - repeat constructor.
  - inversion Hall; subst. constructor; [apply IH; assumption|].
    apply Forall_app. split; [exact Hx|]. repeat constructor. assumption.
Qed.

(** X6.  In every state of the engine [_batches_processed] is not empty,
    is sorted, and holds only counts between 0 and [processed_traces]; so
    reading its first and last items never fails. *)
Theorem X6_marks_invariant s :
  reachable metadatas samples shape s ->
  _batches_processed s <> [] /\
  StronglySorted Z.le (_batches_processed s) /\
  Forall (fun m => 0 <= m <= processed_traces s) (_batches_processed s).
Proof.
  induction 1 as [a s H | s batch _ IH | s _ IH | s s' _ IH H | s s' _ IH H].
  - apply init_OK in H.
    destruct H as (acc0 & sf & m & d & step & _ & _ & _ & _ & _ & _ & ->). cbn.
    split; [discriminate|]. split; repeat constructor; lia.
  - destruct IH as (Hne & Hs & Hall).
    destruct (process_frame s batch) as (-> & _).
    rewrite process_processed_traces.
    split; [exact Hne|]. split; [exact Hs|].
    eapply Forall_impl; [|exact Hall]. cbn. intros m Hm. lia.
  - destruct (compute_results_frame s) as (-> & -> & _). exact IH.
  - destruct IH as (Hne & Hs & Hall).
    assert (H0 : 0 <= processed_traces s).
    { destruct (_batches_processed s) as [|m ms]; [congruence|].
      inversion Hall; subst. lia. }
    apply compute_convergence_OK in H.
    destruct H as [[_ ->] | [(c & _ & _ & ->) | (c & b & _ & _ & _ & ->)]].
    + auto.
    + fields. split; [destruct (_batches_processed s); discriminate|].
      split.
      * apply sorted_app_single; [exact Hs|].
        eapply Forall_impl; [|exact Hall]. cbn. intros m Hm. lia.
      * apply Forall_app. split; [exact Hall|]. repeat constructor; lia.
    + rewrite compute_results_eq. fields.
      split; [discriminate|]. split; repeat constructor; lia.
  - destruct (final_compute_marks _ _ H) as (-> & -> & _). exact IH.
Qed.



Lemma slices_of_process s batch :
  slices_of (process' s batch) = slices_of s.
Proof.
  unfold slices_of. rewrite process_convergence_traces.
  destruct (convergence_traces s), (tracking s); reflexivity.
Qed.

Lemma slices_of_compute_convergence s s' :
  compute_convergence' s = OK s' ->
  slices_of s' = slices_of s \/
  slices_of s' = slices_of s ++ [scores_of s].
Proof.
  intros H. apply compute_convergence_OK in H.
  destruct H as [[_ ->] | [(c & _ & _ & ->) | (c & b & _ & _ & Hb & ->)]].
  - auto.
  - auto.
  - right. unfold slices_of. rewrite Hb. reflexivity.
Qed.

Lemma slices_of_final_compute s s' :
  final_compute' s = OK s' ->
  slices_of s' = slices_of s \/
  slices_of s' = slices_of s ++ [scores_of s].
Proof.
  rewrite final_compute_eq.
  destruct (compute_results_frame s) as (_ & _ & Hb & _).
  destruct (tracking s);
    [destruct (1 <? length (_batches_processed s))%nat|]; intros H.
  - apply append_scores_OK in H. destruct H as (b & sc & Hb' & Hsc & ->).
    right. unfold slices_of. fields. rewrite Hb in Hb'. rewrite Hb'.
    rewrite compute_results_eq in Hsc. cbn in Hsc. injection Hsc as <-.
    reflexivity.
  - injection H as <-. left. unfold slices_of. rewrite Hb. reflexivity.
  - injection H as <-. left. unfold slices_of. rewrite Hb. reflexivity.
Qed.

Lemma slices_of_process_batches bs : forall s s1,
  process_batches' s bs = OK s1 ->
  exists extra, slices_of s1 = slices_of s ++ extra.
Proof.
  induction bs as [|batch rest IH]; intros s s1; cbn [process_batches].
  - intros H. injection H as <-. exists []. symmetry. apply app_nil_r.
  - destruct (compute_convergence' (process' s batch)) as [s0|] eqn:E;
      [|discriminate].
    cbn [bind]. intros H. destruct (IH s0 s1 H) as [extra ->].
    apply slices_of_compute_convergence in E.
    rewrite slices_of_process in E.
    destruct E as [-> | ->]; [eauto|].
    rewrite <- app_assoc. eauto.
Qed.

(** X9.  Stored slices are never dropped or rewritten: [process] and
    [compute_results] keep them, [compute_convergence] and
    [_final_compute] keep them or append the newly computed scores, and
    after [run] they are a prefix of what [convergence_traces] holds. *)
Theorem X9_slices_append_only s :
  (forall batch, slices_of (process' s batch) = slices_of s) /\
  slices_of (compute_results s) = slices_of s /\
  (forall s', compute_convergence' s = OK s' ->
     slices_of s' = slices_of s \/
     slices_of s' = slices_of s ++ [scores_of s]) /\
  (forall s', final_compute' s = OK s' ->
     slices_of s' = slices_of s \/
     slices_of s' = slices_of s ++ [scores_of s]) /\
  (forall container s', run' s container = OK s' ->
     exists extra, slices_of s' = slices_of s ++ extra).
Proof.
  split; [apply slices_of_process|].
  split.
  { unfold slices_of.
    destruct (compute_results_frame s) as (_ & _ & -> & _). reflexivity. }
  split; [apply slices_of_compute_convergence|].
  split; [apply slices_of_final_compute|].
  intros container s' H. apply run_OK in H.
  destruct H as (cont & size & bs & s1 & _ & _ & _ & Hloop & Hfinal).
  destruct (slices_of_process_batches bs s s1 Hloop) as [extra Hextra].
  destruct (slices_of_final_compute s1 s' Hfinal) as [-> | ->];
    rewrite Hextra; [eauto|].
  rewrite <- app_assoc. eauto.
Qed.

(** *** Any batch size *)

Lemma chunks_bounded (n : nat) : forall fuel (l : list Trace),
  (0 < n)%nat ->
  Forall (fun b => (1 <= length b <= n)%nat) (chunks fuel n l).
Proof.
  induction fuel as [|fuel IH]; intros l Hn; cbn [chunks].
  - constructor.
  - destruct l as [|x l']; [constructor|].
    constructor; [|apply IH; exact Hn].
    rewrite length_firstn. cbn [length]. lia.
Qed.

Lemma concat_chunks (n : nat) : forall fuel (l : list Trace),
  (0 < n)%nat -> (length l <= fuel)%nat -> concat (chunks fuel n l) = l.
Proof.
  induction fuel as [|fuel IH]; intros l Hn Hfuel; cbn [chunks].
  - destruct l; [reflexivity|cbn in Hfuel; lia].
  - destruct l as [|x l']; [reflexivity|].
    cbn [concat]. rewrite IH; [apply firstn_skipn | exact Hn |].
    rewrite length_skipn. cbn [length] in *. lia.
Qed.

Lemma spaced_iteration dims c size s batch :
  rows_contract' -> 0 < c ->
  inv s -> lead_is dims s -> shape_contract' dims s ->
  tracking s = Some c -> spaced c size s ->
  1 <= Z.of_nat (length batch) <= size ->
  exists s1,
    compute_convergence' (process' s batch) = OK s1 /\
    inv s1 /\ lead_is dims s1 /\ same_config s s1 /\
    spaced c size s1 /\
    processed_traces s1 = processed_traces s + Z.of_nat (length batch).
Proof.
  intros Hrows Hc Hinv Hlead Hcontract Ht Hsp Hlen.
  destruct (iteration_returns dims s batch Hinv Hlead Hcontract)
    as (s1 & H1 & Hinv1 & Hlead1 & Hc1).
  exists s1. split; [exact H1|]. split; [exact Hinv1|].
  split; [exact Hlead1|]. split; [exact Hc1|].
  destruct Hsp as (Hne & Hlo & Hhi & Hspan & Hstrict).
  destruct (process_frame s batch) as (Hm & _ & _ & Hcp).
  pose proof (process_processed_traces s batch) as Hpp.
  rewrite Hrows in Hpp.
  pose proof (process_slice_count s batch) as Hsc.
  assert (Htp : tracking (process' s batch) = Some c)
    by (rewrite (same_config_tracking _ _ Hcp); exact Ht).
  destruct (process_allocates s c batch Ht) as [b Hb].
  set (t := Z.of_nat (length batch)) in *.
  set (sp := process' s batch) in *. clearbody sp.
  assert (Hstart : hd (processed_traces sp) (_batches_processed sp) =
                   hd 0 (_batches_processed s)).
  { rewrite Hm. apply hd_nonempty. exact Hne. }
  apply compute_convergence_OK in H1.
  destruct H1 as [[Hn _] | [(c' & Ht' & Hbelow & ->)
                           | (c' & b' & Ht' & Hreach & Hb' & ->)]].
  - congruence.
  - assert (c' = c) by congruence. subst c'.
    split; [|exact Hpp]. unfold spaced, slice_count. fields.
    fold (slice_count sp). rewrite Hsc, Hpp, Hm, hd_app_single.
    rewrite (hd_nonempty _ (processed_traces s + t) 0 Hne).
    rewrite Hstart, Hpp in Hbelow.
    split; [destruct (_batches_processed s); discriminate|].
    split; [exact Hlo|]. split; [exact Hhi|]. split; [lia|].
    intros _. lia.
  - assert (c' = c) by congruence. subst c'.
    rewrite Hstart, Hpp in Hreach.
    rewrite compute_results_eq.
    split; [|exact Hpp]. unfold spaced, slice_count. fields.
    rewrite length_app. cbn [length hd].
    unfold slice_count in Hsc, Hlo, Hhi. rewrite Hb' in Hsc.
    rewrite <- Hsc in Hlo, Hhi. rewrite Hpp.
    split; [discriminate|].
    split; [nia|]. split; [nia|]. split; [lia|].
    intros Hgt. lia.
Qed.

Lemma spaced_loop dims c size :
  rows_contract' -> 0 < c ->
  forall bs s,
    Forall (fun b => 1 <= Z.of_nat (length b) <= size) bs ->
    inv s -> lead_is dims s -> shape_contract' dims s ->
    tracking s = Some c -> spaced c size s ->
    exists s1,
      process_batches' s bs = OK s1 /\
      inv s1 /\ lead_is dims s1 /\ same_config s s1 /\
      spaced c size s1 /\
      processed_traces s1 =
        processed_traces s + Z.of_nat (length (concat bs)).
Proof.
  intros Hrows Hc.
  induction bs as [|batch rest IH];
    intros s Hall Hinv Hlead Hcontract Ht Hsp.
  - exists s. cbn. rewrite Z.add_0_r. auto 10 using same_config_refl.
  - inversion Hall as [|? ? Hbatch Hrest]; subst.
    destruct (spaced_iteration dims c size s batch Hrows Hc Hinv Hlead
                Hcontract Ht Hsp Hbatch)
      as (s1 & H1 & Hinv1 & Hlead1 & Hc1 & Hsp1 & Hp1).
    destruct (IH s1 Hrest Hinv1 Hlead1
                (proj1 (same_config_contract dims _ _ Hc1) Hcontract))
      as (s2 & H2 & Hinv2 & Hlead2 & Hc2 & Hsp2 & Hp2).
    + rewrite (same_config_tracking _ _ Hc1). exact Ht.
    + exact Hsp1.
    + exists s2. cbn [process_batches]. rewrite H1. cbn [bind].
      split; [exact H2|]. split; [exact Hinv2|]. split; [exact Hlead2|].
      split; [exact (same_config_trans _ _ _ Hc1 Hc2)|].
      split; [exact Hsp2|].
      rewrite Hp2, Hp1. cbn [concat]. rewrite length_app. lia.
Qed.

(** X10.  A run on a fresh engine with convergence step [c] over a source
    of [N > 0] traces, whatever positive batch size [size] was derived,
    returns with
    [processed_traces = N] and a number [n] of slices with
    [c * n <= N + c - 1], that is at most [N / c] rounded up, and
    [N < n * (c + size - 1) + c]: a checkpoint is never further than
    [c + size - 1] traces from the one before. *)
Theorem X10_slice_count_bounds dims a s c cont size :
  rows_contract' -> shape_contract' dims s ->
  BaseAnalysis_init a = OK s -> convergence_step s = Some c ->
  _compute_batch_size s (batch_size cont) = OK size -> 0 < size ->
  traces cont <> [] ->
  exists s',
    run' s (Instance cont) = OK s' /\
    0 < processed_traces s' /\
    processed_traces s' = Z.of_nat (length (traces cont)) /\
    c * Z.of_nat (slice_count s') <=
      Z.of_nat (length (traces cont)) + c - 1 /\
    Z.of_nat (length (traces cont)) <
      Z.of_nat (slice_count s') * (c + size - 1) + c.
Proof.
  intros Hrows Hcontract Hinit Hstep Hsize_eq Hsize Hnonempty.
  assert (HN : 0 < Z.of_nat (length (traces cont))).
  { destruct (traces cont); [congruence|]. cbn [length]. lia. }
  destruct (init_aligned a s c Hinit Hstep) as (Hc & Ht & _ & Hp0 & Hnone).
  pose proof (inv_init a s Hinit) as Hinv.
  assert (Hlead : lead_is dims s) by (intros b Hb; congruence).
  assert (Hsp : spaced c size s).
  { apply init_OK in Hinit.
    destruct Hinit as (acc0 & sf & m & d & step & _ & _ & _ & _ & _ & _ & ->).
    unfold spaced, slice_count. cbn.
    split; [discriminate|]. repeat (split; [lia|]). lia. }
  set (n := Z.to_nat size).
  set (bs := chunks (length (traces cont)) n (traces cont)).
  assert (Hn : (0 < n)%nat) by (subst n; lia).
  assert (Hall : Forall (fun b => 1 <= Z.of_nat (length b) <= size) bs).
  { eapply Forall_impl; [|apply (chunks_bounded n _ (traces cont) Hn)].
    cbn. intros b Hb. subst n. lia. }
  destruct (spaced_loop dims c size Hrows Hc bs s Hall Hinv Hlead Hcontract
              Ht Hsp) as (s1 & H1 & Hinv1 & Hlead1 & Hc1 & Hsp1 & Hp1).
  unfold bs in Hp1. rewrite concat_chunks in Hp1 by (auto; lia).
  rewrite Hp0, Z.add_0_l in Hp1.
  unfold run. rewrite Hsize_eq. cbn [bind].
  rewrite (batches_positive cont size Hsize).
  cbn [bind]. fold n. fold bs. rewrite H1. cbn [bind].
  assert (Ht1 : tracking s1 = Some c)
    by (rewrite (same_config_tracking _ _ Hc1); exact Ht).
  destruct Hsp1 as (Hne & Hlo & Hhi & Hspan & Hstrict).
  rewrite Hp1 in Hspan, Hstrict.
  set (N := Z.of_nat (length (traces cont))) in *.
  destruct (Nat.ltb_spec 1 (length (_batches_processed s1))) as [Hmany|Hone].
  - specialize (Hstrict Hmany).
    destruct (convergence_traces s1) as [b|] eqn:Hb.
    + rewrite (final_compute_appends dims s1 c b Ht1 Hmany Hb).
      * eexists. split; [reflexivity|].
        rewrite compute_results_eq. unfold slice_count in *. fields.
        rewrite Hb in Hlo, Hhi. rewrite length_app. cbn [length].
        split; [lia|]. split; [exact Hp1|]. split; nia.
      * apply Hlead1. exact Hb.
      * apply (proj2 (proj1 (same_config_contract dims _ _ Hc1) Hcontract)).
    + exfalso. destruct Hinv1 as (_ & Hidle & _).
      destruct (Hidle c Ht1 Hb) as [Hzero Hall0].
      rewrite Hp1 in Hzero.
      destruct (_batches_processed s1) as [|m0 ms]; [congruence|].
      inversion Hall0; subst. cbn [hd] in Hstrict. lia.
  - rewrite final_compute_plain by (intros [_ Hgt]; lia).
    eexists. split; [reflexivity|].
    destruct (compute_results_frame s1) as (Hp & _ & Hb & _).
    unfold slice_count in *. rewrite Hp, Hb.
    split; [lia|]. split; [exact Hp1|]. split; nia.
Qed.

(** *** The newest slice *)

Lemma closing_iteration dims s c batch :
  (forall a : Acc, snd (compute a) = a) ->
  inv s -> lead_is dims s -> shape_contract' dims s ->
  tracking s = Some c -> _batches_processed s <> [] ->
  exists s1,
    compute_convergence' (process' s batch) = OK s1 /\
    inv s1 /\ lead_is dims s1 /\ same_config s s1 /\
    closed_by_scores s1.
Proof.
  intros Hpure Hinv Hlead Hcontract Ht Hne.
  destruct (iteration_returns dims s batch Hinv Hlead Hcontract)
    as (s1 & H1 & Hinv1 & Hlead1 & Hc1).
  exists s1. split; [exact H1|]. split; [exact Hinv1|].
  split; [exact Hlead1|]. split; [exact Hc1|].
  destruct (process_frame s batch) as (Hm & _ & _ & Hcp).
  destruct (process_allocates s c batch Ht) as [b Hb].
  set (sp := process' s batch) in *. clearbody sp.
  apply compute_convergence_OK in H1.
  destruct H1 as [[Hn _] | [(c' & _ & _ & ->) | (c' & b' & _ & _ & Hb' & ->)]].
  - rewrite (same_config_tracking _ _ Hcp) in Hn. congruence.
  - unfold closed_by_scores. fields. rewrite Hm, Hb.
    split; [destruct (_batches_processed s); discriminate|].
    split; [discriminate|].
    rewrite length_app. cbn [length].
    destruct (_batches_processed s); [congruence|]. cbn [length]. lia.
  - rewrite compute_results_eq. unfold closed_by_scores, slices_of. fields.
    split; [discriminate|]. split; [discriminate|].
    intros _. exists (slices b'). rewrite Hpure. reflexivity.
Qed.

Lemma closing_loop dims c :
  (forall a : Acc, snd (compute a) = a) ->
  forall rest batch s,
    inv s -> lead_is dims s -> shape_contract' dims s ->
    tracking s = Some c -> _batches_processed s <> [] ->
    exists s1,
      process_batches' s (batch :: rest) = OK s1 /\
      inv s1 /\ lead_is dims s1 /\ same_config s s1 /\
      closed_by_scores s1.
Proof.
  intros Hpure.
  induction rest as [|batch' rest IH];
    intros batch s Hinv Hlead Hcontract Ht Hne;
    destruct (closing_iteration dims s c batch Hpure Hinv Hlead Hcontract
                Ht Hne)
      as (s1 & H1 & Hinv1 & Hlead1 & Hc1 & Hcl1).
  - exists s1. cbn [process_batches]. rewrite H1. cbn. auto 10.
  - destruct (IH batch' s1 Hinv1 Hlead1
                (proj1 (same_config_contract dims _ _ Hc1) Hcontract))
      as (s2 & H2 & Hinv2 & Hlead2 & Hc2 & Hcl2).
    + rewrite (same_config_tracking _ _ Hc1). exact Ht.
    + apply Hcl1.
    + exists s2.
      change (process_batches' s (batch :: batch' :: rest))
        with (s0 <- compute_convergence' (process' s batch) ;;
              process_batches' s0 (batch' :: rest)).
      rewrite H1. cbn [bind].
      split; [exact H2|]. split; [exact Hinv2|]. split; [exact Hlead2|].
      split; [exact (same_config_trans _ _ _ Hc1 Hc2)|]. exact Hcl2.
Qed.

(** X11.  When [compute] leaves the accumulators as they are, a run on a
    fresh engine that tracks convergence, over a source that is not empty,
    returns with the final [scores] as the newest slice of
    [convergence_traces], whether the last batch closed a checkpoint or
    the final reduction added the slice. *)
Theorem X11_trace_ends_with_final_scores dims a s c cont size :
  (forall acc0 : Acc, snd (compute acc0) = acc0) ->
  shape_contract' dims s ->
  BaseAnalysis_init a = OK s -> convergence_step s = Some c ->
  _compute_batch_size s (batch_size cont) = OK size -> 0 < size ->
  traces cont <> [] ->
  exists s' front sc,
    run' s (Instance cont) = OK s' /\
    scores s' = Some sc /\
    slices_of s' = front ++ [sc].
Proof.
  intros Hpure Hcontract Hinit Hstep Hsize_eq Hsize Hnonempty.
  destruct (init_aligned a s c Hinit Hstep) as (Hc & Ht & Hal & _ & Hnone).
  pose proof (inv_init a s Hinit) as Hinv.
  assert (Hlead : lead_is dims s) by (intros b Hb; congruence).
  destruct Hal as (_ & Hne & _).
  destruct (traces cont) as [|x l] eqn:Hl; [congruence|].
  destruct (closing_loop dims c Hpure
              (chunks (length l) (Z.to_nat size)
                 (skipn (Z.to_nat size) (x :: l)))
              (firstn (Z.to_nat size) (x :: l)) s
              Hinv Hlead Hcontract Ht Hne)
    as (s1 & H1 & Hinv1 & Hlead1 & Hc1 & Hne1 & Hbuf1 & Hlast1).
  assert (Hrun : run' s (Instance cont) = final_compute' s1).
  { unfold run. rewrite Hsize_eq. cbn [bind].
    rewrite (batches_positive cont size Hsize).
    cbn [bind]. rewrite Hl. cbn [length chunks]. rewrite H1. reflexivity. }
  rewrite Hrun.
  assert (Ht1 : tracking s1 = Some c)
    by (rewrite (same_config_tracking _ _ Hc1); exact Ht).
  destruct (convergence_traces s1) as [b|] eqn:Hb; [|congruence].
  destruct (Nat.ltb_spec 1 (length (_batches_processed s1))) as [Hmany|Hone].
  - rewrite (final_compute_appends dims s1 c b Ht1 Hmany Hb).
    + eexists. exists (slices b). eexists. split; [reflexivity|].
      rewrite compute_results_eq. unfold slices_of. fields. auto.
    + apply Hlead1. exact Hb.
    + apply (proj2 (proj1 (same_config_contract dims _ _ Hc1) Hcontract)).
  - rewrite final_compute_plain by (intros [_ Hgt]; lia).
    destruct Hlast1 as [front Hfront].
    { destruct (_batches_processed s1); [congruence|]. cbn [length] in *. lia. }
    eexists. exists front. eexists. split; [reflexivity|].
    rewrite compute_results_eq. unfold slices_of in *. fields.
    rewrite Hb in *. auto.
Qed.

(** *** Resuming a run *)










End EngineFacts.

(** ** Properties of the batch-size derivation *)

(** C1.  The derivation divides with [/] and truncates: at
    [convergence_step = 2^54 - 1] and a default batch size of [2^53 - 1],
    which is smaller, it returns [2^53], whereas [c // (c // b)] is
    [2^53 - 1]. *)
Theorem C1_batch_size_true_division :
  _compute_batch_size (Toy.fresh (Some (2 ^ 54 - 1))) (2 ^ 53 - 1)
  = OK (2 ^ 53) /\
  (2 ^ 54 - 1) / ((2 ^ 54 - 1) / (2 ^ 53 - 1)) = 2 ^ 53 - 1 /\
  0 < 2 ^ 53 - 1 < 2 ^ 54 - 1.
Proof. vm_compute. intuition congruence. Qed.

(** C5, as amended.  For [b >= c > 0] the derived batch size is [c].  For
    [0 < b < c], with [c] below 2^53, it is at least [b], and it divides [c]
    exactly when [c // b] does; when [b] divides [c] it is [b]. *)
Theorem C5_batch_size_divisibility {Meta Acc ndarray : Type}
    (s : state Meta Acc ndarray) (b c : Z) :
  tracking s = Some c ->
  (c <= b -> _compute_batch_size s b = OK c) /\
  (0 < b -> b < c -> c < 2 ^ 53 ->
     exists size,
       _compute_batch_size s b = OK size /\
       b <= size /\
       ((size | c) <-> (c / b | c)) /\
       ((b | c) -> size = b)).
Proof.
  intros Ht. split.
  - apply batch_size_capped. exact Ht.
  - intros Hb Hbc Hc. exists (c / (c / b)).
    split; [apply batch_size_floor; assumption|].
    destruct (floor_quotient_facts b c Hb Hbc) as (Hlo & _ & Hiff & Hexact).
    auto.
Qed.

(** X4.  With a convergence step [c] below 2^53 and a positive default
    batch size [b], the derivation returns a batch size that is positive
    and at most [c]: [c] itself when [b >= c], and otherwise
    [c // (c // b)], which is at least [b] and less than [2 * b], fits
    [c // b] times in [c] and not once more. *)
Theorem X4_batch_size_bounds {Meta Acc ndarray : Type}
    (s : state Meta Acc ndarray) (b c : Z) :
  tracking s = Some c -> 0 < c -> c < 2 ^ 53 -> 0 < b ->
  exists size,
    _compute_batch_size s b = OK size /\
    0 < size <= c /\
    (c <= b -> size = c) /\
    (b < c ->
       size = c / (c / b) /\
       b <= size < 2 * b /\
       (c / b) * size <= c < (c / b + 1) * size).
Proof.
  intros Ht Hc Hsmall Hb.
  destruct (Z_lt_le_dec b c) as [Hlt|Hle].
  - exists (c / (c / b)).
    split; [apply batch_size_floor; assumption|].
    destruct (floor_quotient_facts b c Hb Hlt) as (Hlo & Hfit & _ & _).
    assert (Hq : 0 < c / b) by (apply Z.div_str_pos; lia).
    assert (Hnext : c < (c / b + 1) * b).
    { pose proof (Z.div_mod c b ltac:(lia)).
      pose proof (Z.mod_pos_bound c b Hb). nia. }
    set (q := c / b) in *. set (size := c / q) in *.
    assert (Hup : size < 2 * b) by nia.
    split; [nia|]. split; [lia|]. intros _.
    split; [reflexivity|]. split; [lia|]. nia.
  - exists c. split; [apply batch_size_capped; assumption|].
    split; [lia|]. split; [reflexivity|]. lia.
Qed.

(** ** The properties on the concrete analysis *)

Module ToyFacts.

Import Toy.

Lemma rows : rows_contract samples shape.
Proof. intros batch. reflexivity. Qed.

Lemma shapes (step : option Z) : shape_contract shape [] (fresh step).
Proof. split; intros; reflexivity. Qed.

Lemma init_fresh :
  BaseAnalysis_init (args monobit (PyInt 300)) = OK (fresh (Some 300)).
Proof. reflexivity. Qed.

(** C2 fails as stated: with step 10 and default batch size 3 the derived
    batch size is 3, the marks of 11 traces are 3, 6, 9, 11, and the only
    slice is stored at 11 although [11 = 1 * 10 + 1]. *)
Lemma C2_counterexample :
  BaseAnalysis_init (args monobit (PyInt 10)) = OK (fresh (Some 10)) /\
  _compute_batch_size (fresh (Some 10)) 3 = OK 3 /\
  exists s',
    run_toy (fresh (Some 10)) (container 3 11) = OK s' /\
    processed_traces s' = 1 * 10 + 1 /\
    slice_count s' = 1%nat /\
    Z.of_nat (slice_count s') <> 1 + (if 0 <? 1 then 1 else 0).
Proof.
  split; [reflexivity|]. split; [reflexivity|].
  eexists. split; [vm_compute; reflexivity|].
  split; [reflexivity|]. split; [reflexivity|].
  cbn. discriminate.
Qed.

Lemma C2_witness :
  exists s',
    run_toy (fresh (Some 300)) (container 100 1000) = OK s' /\
    0 < processed_traces s' /\
    processed_traces s' = 3 * 300 + 100 /\
    Z.of_nat (slice_count s') = 3 + (if 0 <? 100 then 1 else 0).
Proof.
  apply (C2_checkpoint_count_aligned metadatas samples shape []
           (args monobit (PyInt 300)) (fresh (Some 300)) 300
           {| batch_size := 100; traces := repeat 1 1000 |} 100 3 100).
  - exact rows.
  - exact (shapes (Some 300)).
  - reflexivity.
  - reflexivity.
  - reflexivity.
  - reflexivity.
  - exists 3. reflexivity.
  - discriminate.
  - reflexivity.
  - lia.
Defined.

Lemma reachable_after_batch : reachable metadatas samples shape after_batch.
Proof.
  apply reach_process.
  apply (reach_init metadatas samples shape (args monobit (PyInt 2))).
  reflexivity.
Defined.

Lemma C3_witness :
  exists b s',
    convergence_traces after_batch = Some b /\
    compute_convergence shape after_batch = OK s' /\
    s' = set_convergence_traces
           (Some {| lead := lead b;
                    slices := slices b ++
                      [discriminant after_batch
                         (fst (compute (acc after_batch)))] |})
           (compute_results
              (set_batches_processed [processed_traces after_batch]
                 after_batch)) /\
    _batches_processed s' = [processed_traces after_batch] /\
    results s' = Some (fst (compute (acc after_batch))) /\
    scores s' =
      Some (discriminant after_batch (fst (compute (acc after_batch)))) /\
    convergence_traces s' =
      Some {| lead := lead b;
              slices := slices b ++
                [discriminant after_batch
                   (fst (compute (acc after_batch)))] |}.
Proof.
  apply (C3_checkpoint_trigger_and_reset metadatas samples shape []
           after_batch 2 reachable_after_batch).
  - split; intros; reflexivity.
  - reflexivity.
  - vm_compute. discriminate.
Defined.

Lemma C4_witness :
  exists bs s1,
    batches {| batch_size := 3; traces := repeat 1 7 |} 5 = OK bs /\
    process_batches metadatas samples shape (fresh (Some 5)) bs = OK s1 /\
    0 < processed_traces s1 /\
    exists s',
      run_toy (fresh (Some 5)) (container 3 7) = OK s' /\
      results s' = Some (fst (compute (acc s1))) /\
      scores s' = Some (discriminant s1 (fst (compute (acc s1)))) /\
      ((tracking s1 <> None /\ (1 < length (_batches_processed s1))%nat) ->
         exists b,
           convergence_traces s1 = Some b /\
           convergence_traces s' =
             Some {| lead := lead b;
                     slices := slices b ++
                       [discriminant s1 (fst (compute (acc s1)))] |}) /\
      (~ (tracking s1 <> None /\ (1 < length (_batches_processed s1))%nat) ->
         convergence_traces s' = convergence_traces s1).
Proof.
  destruct (C4_final_reduction metadatas samples shape [] (fresh (Some 5))
              {| batch_size := 3; traces := repeat 1 7 |} 5)
    as (bs & s1 & Hbs & Hloop & Hfinal).
  - apply (reach_init metadatas samples shape (args monobit (PyInt 5))).
    reflexivity.
  - exact (shapes (Some 5)).
  - reflexivity.
  - reflexivity.
  - exists bs, s1. split; [exact Hbs|]. split; [exact Hloop|].
    assert (Hpos : 0 < processed_traces s1).
    { rewrite (process_batches_processed metadatas samples shape bs
                 (fresh (Some 5)) s1 rows Hloop).
      rewrite batches_positive in Hbs by reflexivity.
      injection Hbs as <-. reflexivity. }
    split; [exact Hpos|]. exact (Hfinal Hpos).
Defined.

Lemma C5_counterexample :
  _compute_batch_size (fresh (Some 10)) 3 = OK 3 /\
  0 < 3 < 10 /\ ~ (3 | 10).
Proof.
  split; [reflexivity|]. split; [lia|].
  intros [k Hk]. lia.
Qed.

Lemma C5_witness :
  (300 <= 300 -> _compute_batch_size (fresh (Some 300)) 300 = OK 300) /\
  (exists size,
     _compute_batch_size (fresh (Some 300)) 100 = OK size /\
     100 <= size /\
     ((size | 300) <-> (300 / 100 | 300)) /\
     ((100 | 300) -> size = 100)).
Proof.
  split.
  - exact (proj1 (C5_batch_size_divisibility (fresh (Some 300)) 300 300
                    eq_refl)).
  - apply (proj2 (C5_batch_size_divisibility (fresh (Some 300)) 100 300
                    eq_refl)).
    + reflexivity.
    + reflexivity.
    + reflexivity.
Defined.

Lemma C6_witness :
  results (compute_results (compute_results after_batch)) =
    results (compute_results after_batch) /\
  scores (compute_results (compute_results after_batch)) =
    scores (compute_results after_batch) /\
  compute_results (compute_results after_batch) = compute_results after_batch.
Proof.
  apply (C6_idempotent_reduction after_batch).
  intros a. reflexivity.
Defined.

Lemma C7_witness :
  BaseAnalysis_init (args monobit (PyObject "float")) = Raise TypeError /\
  BaseAnalysis_init (args monobit (PyInt 0)) = Raise ValueError /\
  exists s,
    BaseAnalysis_init (args monobit PyNone) = OK s /\
    convergence_step s = None /\ tracking s = None /\
    convergence_traces s = None /\ _batches_processed s = [0] /\
    processed_traces s = 0.
Proof.
  split; [|split].
  - apply (proj1 (proj2 (proj2 (proj2
             (C7_convergence_step_validation
                (args monobit (PyObject "float")) (fresh None)))))).
    + reflexivity.
    + exists 0. reflexivity.
    + discriminate.
    + reflexivity.
  - refine (proj1 (proj2 (proj2 (proj2 (proj2
              (C7_convergence_step_validation
                 (args monobit (PyInt 0)) (fresh None)))))
              eq_refl _ _ _ _) 0 eq_refl _).
    + exists 0. reflexivity.
    + exists parity. reflexivity.
    + exists monobit. reflexivity.
    + exists absolute. reflexivity.
    + lia.
  - refine (proj2 (proj2 (proj2 (proj2 (proj2
              (C7_convergence_step_validation
                 (args monobit PyNone) (fresh None)))))
              eq_refl _ _ _ _) eq_refl).
    + exists 0. reflexivity.
    + exists parity. reflexivity.
    + exists monobit. reflexivity.
    + exists absolute. reflexivity.
Defined.

Lemma C8_witness :
  (exists e, DPAAnalysis_init (args value (PyInt 300)) = Raise e) /\
  (forall s, BaseAnalysis_init (args value (PyInt 300)) = OK s ->
     DPAAnalysis_init (args value (PyInt 300)) = Raise DistinguisherError /\
     processed_traces s = 0).
Proof.
  apply (C8_dpa_requires_monobit (args value (PyInt 300))).
  intros m Hm. injection Hm as <-. reflexivity.
Defined.

(** C9 fails as stated: after the first [process] call, and before any
    checkpoint, the buffer is an array with no slice, not [None]. *)
Lemma C9_counterexample :
  exists s',
    compute_convergence shape
      (process metadatas samples shape (fresh (Some 5)) [1; 1]) = OK s' /\
    _batches_processed s' = [0; 2] /\
    results s' = None /\
    slice_count s' = 0%nat /\
    convergence_traces s' <> None.
Proof.
  eexists. split; [vm_compute; reflexivity|].
  split; [reflexivity|]. split; [reflexivity|]. split; [reflexivity|].
  discriminate.
Qed.

Lemma C9_witness :
  exists b,
    convergence_traces
      (process metadatas samples shape (fresh (Some 5)) [1; 1]) = Some b /\
    slices b = [] /\
    np_shape b =
      tl (shape (compute_intermediate_values (fresh (Some 5))
                   (metadatas [1; 1]))) ++ [O].
Proof.
  apply (proj1 (proj2 (C9_lazy_allocation metadatas samples shape))
           (fresh (Some 5)) 5 [1; 1]).
  - reflexivity.
  - reflexivity.
Defined.

Lemma C10_witness :
  exists s',
    compute_convergence shape
      (process metadatas samples shape (fresh (Some 5)) [1; 1]) = OK s' /\
    s' = set_batches_processed [0; 2]
           (process metadatas samples shape (fresh (Some 5)) [1; 1]) /\
    _batches_processed s' = [0; 2] /\
    results s' = None /\
    scores s' = None /\
    convergence_traces s' = Some (np_empty_trailing []) /\
    processed_traces s' = 2 /\
    acc s' = 2.
Proof.
  refine (C10_sub_threshold_frame shape
            (process metadatas samples shape (fresh (Some 5)) [1; 1]) 5
            eq_refl _).
  vm_compute. reflexivity.
Defined.

End ToyFacts.

(** ** The further properties on the concrete analysis *)

Module ToyExtras.

Import Toy.

Lemma fresh_shapes (step : option Z) : shape_contract shape [] (fresh step).
Proof. split; intros; reflexivity. Qed.

Lemma toy_rows : rows_contract samples shape.
Proof. intros batch. reflexivity. Qed.

Lemma toy_pure : forall a : Z, snd (compute a) = a.
Proof. intros a. reflexivity. Qed.

Lemma X4_witness :
  exists size,
    _compute_batch_size (fresh (Some 10)) 3 = OK size /\
    0 < size <= 10 /\
    (10 <= 3 -> size = 10) /\
    (3 < 10 ->
       size = 10 / (10 / 3) /\
       3 <= size < 2 * 3 /\
       (10 / 3) * size <= 10 < (10 / 3 + 1) * size).
Proof.
  refine (X4_batch_size_bounds (fresh (Some 10)) 3 10 eq_refl _ _ _);
    reflexivity.
Defined.

Lemma X5_witness :
  _batches_processed
    (set_batches_processed [0; 2]
       (process metadatas samples shape (fresh (Some 5)) [1; 1])) <> [] /\
  last (_batches_processed
          (set_batches_processed [0; 2]
             (process metadatas samples shape (fresh (Some 5)) [1; 1]))) 0 =
    processed_traces
      (set_batches_processed [0; 2]
         (process metadatas samples shape (fresh (Some 5)) [1; 1])) /\
  processed_traces
    (set_batches_processed [0; 2]
       (process metadatas samples shape (fresh (Some 5)) [1; 1])) =
    processed_traces
      (process metadatas samples shape (fresh (Some 5)) [1; 1]) /\
  processed_traces
    (set_batches_processed [0; 2]
       (process metadatas samples shape (fresh (Some 5)) [1; 1])) -
  hd 0 (_batches_processed
          (set_batches_processed [0; 2]
             (process metadatas samples shape (fresh (Some 5)) [1; 1]))) < 5.
Proof.
  refine (X5_open_span_below_step shape
            (process metadatas samples shape (fresh (Some 5)) [1; 1]) 5
            (set_batches_processed [0; 2]
               (process metadatas samples shape (fresh (Some 5)) [1; 1]))
            eq_refl _ _).
  - reflexivity.
  - vm_compute. reflexivity.
Defined.

Lemma X6_witness :
  _batches_processed after_batch <> [] /\
  StronglySorted Z.le (_batches_processed after_batch) /\
  Forall (fun m => 0 <= m <= processed_traces after_batch)
    (_batches_processed after_batch).
Proof.
  apply (X6_marks_invariant metadatas samples shape after_batch).
  apply reach_process.
  apply (reach_init metadatas samples shape (args monobit (PyInt 2))).
  reflexivity.
Defined.


Lemma X10_witness :
  exists s',
    run_toy (fresh (Some 10)) (container 3 11) = OK s' /\
    0 < processed_traces s' /\
    processed_traces s' = Z.of_nat (length (repeat 1 11)) /\
    10 * Z.of_nat (slice_count s') <=
      Z.of_nat (length (repeat 1 11)) + 10 - 1 /\
    Z.of_nat (length (repeat 1 11)) <
      Z.of_nat (slice_count s') * (10 + 3 - 1) + 10.
Proof.
  refine (X10_slice_count_bounds metadatas samples shape []
            (args monobit (PyInt 10)) (fresh (Some 10)) 10
            {| batch_size := 3; traces := repeat 1 11 |} 3
            toy_rows (fresh_shapes (Some 10)) eq_refl eq_refl eq_refl _ _).
  - reflexivity.
  - discriminate.
Defined.

Lemma X11_witness :
  exists s' front sc,
    run_toy (fresh (Some 10)) (container 3 11) = OK s' /\
    scores s' = Some sc /\
    slices_of s' = front ++ [sc].
Proof.
  refine (X11_trace_ends_with_final_scores metadatas samples shape []
            (args monobit (PyInt 10)) (fresh (Some 10)) 10
            {| batch_size := 3; traces := repeat 1 11 |} 3
            toy_pure (fresh_shapes (Some 10)) eq_refl eq_refl eq_refl _ _).
  - reflexivity.
  - discriminate.
Defined.


End ToyExtras.
